(** * MultiStat .mdat extractor: a shallow embedding of [mdat-extractor.py]

    The script unpacks Solartron MultiStat archives ([.mdat], ZIP containers),
    finds the ASCII impedance members ([.z]), locates the column header with
    the ['End Header:'] marker, reads the data block with
    [pandas.read_csv], keeps three target columns and writes them as a
    comma separated and a tab separated file.

    The text of a member is a list of 8-bit characters: members are
    decoded with Latin-1, which maps every byte to the code point of the
    same number.  The functions that the script applies to the names of
    archives and members are written for any type of characters (class
    [Char]), since a name can hold any character of Unicode; the script as
    a whole is run on 8-bit names. *)

From Stdlib Require Import Ascii String ZArith QArith Bool Lia DecimalString.
From stdpp Require Import gmap strings list.

Local Open Scope Z_scope.
Local Open Scope list_scope.

Abbreviation str := (list ascii).

(** A Python string literal. *)
Definition lit (s : string) : str := list_ascii_of_string s.

(** ** Python built-ins used by the script *)
Module Py.

Definition ord (c : ascii) : N := N_of_ascii c.

Definition LF : ascii := ascii_of_N 10.
Definition CR : ascii := ascii_of_N 13.
Definition TAB : ascii := ascii_of_N 9.

(** [str.isspace] on one character, which is also the class [\s] of
    [re] on text patterns; below code point 256 these are
    09-0D, 1C-1F, 20, 85 and A0. *)
Definition isspace (c : ascii) : bool :=
  let n := ord c in
  (((9 <=? n) && (n <=? 13)) || ((28 <=? n) && (n <=? 32))
   || (n =? 133) || (n =? 160))%N.

(** The line boundaries of [str.splitlines]: LF, VT, FF, CR, FS, GS, RS
    and NEL (CR LF counts as one boundary). *)
Definition is_linebreak (c : ascii) : bool :=
  let n := ord c in
  (((10 <=? n) && (n <=? 13)) || ((28 <=? n) && (n <=? 30)) || (n =? 133))%N.

Definition is_lf (c : ascii) : bool := (ord c =? 10)%N.
Definition is_cr (c : ascii) : bool := (ord c =? 13)%N.

(** [c] joins the line that [rest] starts with. *)
Definition push_char (c : ascii) (rest : list str) : list str :=
  match rest with
  | [] => [[c]]
  | l :: ls => (c :: l) :: ls
  end.

(** [s.splitlines(True)]: the lines of [s], each with its terminator. *)
Fixpoint splitlines (s : str) : list str :=
  match s with
  | [] => []
  | c :: s' =>
    if is_linebreak c then
      match s' with
      | c' :: s'' =>
        if is_cr c && is_lf c' then [c; c'] :: splitlines s''
        else [c] :: splitlines s'
      | [] => [[c]]
      end
    else push_char c (splitlines s')
  end.

(** [s.startswith(p)]. *)
Fixpoint startswith (p s : str) : bool :=
  match p, s with
  | [], _ => true
  | _ :: _, [] => false
  | a :: p', b :: s' => Ascii.eqb a b && startswith p' s'
  end.

(** [p in s] on strings: [p] occurs in [s] as a substring. *)
Fixpoint contains (p s : str) : bool :=
  startswith p s ||
  match s with
  | [] => false
  | _ :: s' => contains p s'
  end.

Fixpoint lstrip (s : str) : str :=
  match s with
  | [] => []
  | c :: s' => if isspace c then lstrip s' else s
  end.

Definition rstrip (s : str) : str := rev (lstrip (rev s)).

(** [s.strip()]. *)
Definition strip (s : str) : str := rstrip (lstrip s).

Definition starts_with_space (s : str) : bool :=
  match s with
  | [] => false
  | c :: _ => isspace c
  end.

(** [re.split(r'\s+', s)]: the pieces of [s] between the maximal runs of
    whitespace; a run at either end leaves an empty piece there, and the
    empty string gives one empty piece. *)
Fixpoint re_split_ws (s : str) : list str :=
  match s with
  | [] => [[]]
  | c :: s' =>
    if isspace c then
      if starts_with_space s' then re_split_ws s' else [] :: re_split_ws s'
    else push_char c (re_split_ws s')
  end.

(** [str.lower] on one character of the Latin-1 repertoire. *)
Definition lower_char (c : ascii) : ascii :=
  let n := ord c in
  if (((65 <=? n) && (n <=? 90))
      || ((192 <=? n) && (n <=? 222) && negb (n =? 215)))%N
  then ascii_of_N (n + 32) else c.

Definition lower (s : str) : str := map lower_char s.

(** [s.endswith(p)]. *)
Definition endswith (p s : str) : bool := startswith (rev p) (rev s).

(** [sep.join(parts)]. *)
Fixpoint join (sep : str) (parts : list str) : str :=
  match parts with
  | [] => []
  | [p] => p
  | p :: ps => p ++ sep ++ join sep ps
  end.

(** A decimal digit of ASCII. *)
Definition isdigit (c : ascii) : bool :=
  let n := ord c in ((48 <=? n) && (n <=? 57))%N.

Fixpoint take_digits (s : str) : str :=
  match s with
  | [] => []
  | c :: s' => if isdigit c then c :: take_digits s' else []
  end.

(** A character matches a letter of the pattern under [re.IGNORECASE]. *)
Definition eqb_nocase (pat c : ascii) : bool :=
  Ascii.eqb (lower_char pat) (lower_char c).

(** *** Names

    The characters of a name: a type with decidable equality that has
    the characters of ASCII ([chr]), the class [\d] of [re] (the decimal
    digits, [isdecimal]) and the match of a letter of a pattern under
    [re.IGNORECASE] ([match_nocase]). *)
Class Char (C : Type) := mkChar {
  char_eq_dec : forall x y : C, {x = y} + {x <> y};
  chr : ascii -> C;
  chr_inj : forall a b, chr a = chr b -> a = b;
  isdecimal : C -> bool;
  match_nocase : ascii -> C -> bool
}.

(** The 8-bit characters: below code point 256 the decimal digits are
    the ASCII ones. *)
#[export] Instance ascii_char : Char ascii :=
  {| char_eq_dec := ascii_dec;
     chr := fun c => c;
     chr_inj := fun a b H => H;
     isdecimal := isdigit;
     match_nocase := eqb_nocase |}.

(** The characters of Unicode as code points; the class of decimal
    digits and the match of a letter are tables of Unicode, which the
    model leaves open. *)
Definition unicode_char (decimal : N -> bool) (nocase : ascii -> N -> bool)
    : Char N :=
  {| char_eq_dec := N.eq_dec;
     chr := N_of_ascii;
     chr_inj := fun a b H =>
       eq_trans (eq_sym (ascii_N_embedding a))
                (eq_trans (f_equal ascii_of_N H) (ascii_N_embedding b));
     isdecimal := decimal;
     match_nocase := nocase |}.

Section Names.

Context {C : Type} {char : Char C}.

(** [s.replace(a, b)] for one-character [a] and [b]. *)
Definition replace_char (a b : C) (s : list C) : list C :=
  map (fun c => if char_eq_dec c a then b else c) s.

(** The longest match of [\d*] at the start of [s]. *)
Fixpoint take_decimals (s : list C) : list C :=
  match s with
  | [] => []
  | c :: s' => if isdecimal c then c :: take_decimals s' else []
  end.

(** [re.match(r'Run(\d+)', s, re.IGNORECASE)]: group 0 of a match that
    starts at the first character. *)
Definition match_run (s : list C) : option (list C) :=
  match s with
  | r :: u :: n :: rest =>
    if match_nocase "R" r && match_nocase "u" u && match_nocase "n" n then
      match take_decimals rest with
      | [] => None
      | ds => Some (r :: u :: n :: ds)
      end
    else None
  | _ => None
  end.

(** [re.search(r'Run(\d+)', s, re.IGNORECASE)]: group 0 of the leftmost
    match, [None] when there is none. *)
Fixpoint search_run (s : list C) : option (list C) :=
  match match_run s with
  | Some m => Some m
  | None =>
    match s with
    | [] => None
    | _ :: s' => search_run s'
    end
  end.

(** [s.rfind(c)] for a single character, [-1] when absent. *)
Fixpoint rfind_from (c : C) (s : list C) (i : Z) (last : Z) : Z :=
  match s with
  | [] => last
  | d :: s' => rfind_from c s' (i + 1) (if char_eq_dec d c then i else last)
  end.

Definition rfind (c : C) (s : list C) : Z := rfind_from c s 0 (-1).

(** Slices [s[:i]] and [s[i:]] for [0 <= i]. *)
Definition slice_to (s : list C) (i : Z) : list C := firstn (Z.to_nat i) s.
Definition slice_from (s : list C) (i : Z) : list C := skipn (Z.to_nat i) s.

(** [os.path.basename] (posixpath). *)
Definition basename (p : list C) : list C :=
  slice_from p (rfind (chr "/") p + 1).

(** The scan of [genericpath._splitext] over the leading dots of the
    file name: [true] when a character other than the dot lies in
    [p[from:dot]]. *)
Definition has_non_dot (p : list C) (from dot : Z) : bool :=
  existsb (fun c => if char_eq_dec c (chr ".") then false else true)
          (firstn (Z.to_nat (dot - from)) (slice_from p from)).

(** [os.path.splitext] (posixpath). *)
Definition splitext (p : list C) : list C * list C :=
  let sepIndex := rfind (chr "/") p in
  let dotIndex := rfind (chr ".") p in
  if (sepIndex <? dotIndex) && has_non_dot p (sepIndex + 1) dotIndex
  then (slice_to p dotIndex, slice_from p dotIndex)
  else (p, []).

End Names.

(** [os.path.join(a, b)] (posixpath). *)
Definition path_join (a b : str) : str :=
  if startswith (lit "/") b then b
  else if match a with [] => true | _ => endswith (lit "/") a end then a ++ b
  else a ++ lit "/" ++ b.

(** The exceptions that the modelled calls raise; all of them derive
    from [Exception]. *)
Inductive exn :=
| ValueError
| EmptyDataError
| PermissionError
| OSError
| BadZipFile
| KeyError
| RuntimeError.

End Py.


Import Py.

(** ** The parts of pandas the script calls

    [read_csv] is modelled as the script calls it: the python engine, the
    regular expression [\s+] as separator, [names] given, [header=None] and
    [on_bad_lines='skip'] (an argument that pandas has since version 1.3;
    the model follows pandas 2).

    Binary floating point is not modelled bit by bit.  A number is kept
    as the decimal value that its token writes: [Num q] is the number that
    the conversion stores for the value [q], which is the integer [q]
    where pandas keeps the column as 64-bit integers, and otherwise the
    64-bit float nearest to [q].  What the model keeps of such a number
    is its sign and the value it was read from; its text is left to
    [float_repr].  A value beyond the range of 64-bit floats is stored as
    an infinity. *)
Module Pd.

(** A cell after numeric conversion: the float NaN, an infinity, the
    number stored for the decimal value [written], or a boolean. *)
Inductive value : Type :=
| NaN
| Inf (negative : bool)
| Num (written : Q)
| Bool (b : bool).

Definition isna (v : value) : bool :=
  match v with
  | NaN => true
  | _ => false
  end.

Definition notna (v : value) : bool := negb (isna v).

(** Line iteration of [io.StringIO]: with its default [newline='\n'] a
    line ends at LF only, and the terminator stays on the line. *)
Fixpoint readlines (s : str) : list str :=
  match s with
  | [] => []
  | c :: s' =>
    if is_lf c then [c] :: readlines s' else push_char c (readlines s')
  end.

(** The reader of the python engine for a regular expression separator:
    every line is stripped and split on the separator. *)
Definition tokenize (line : str) : list str := re_split_ws (strip line).

(** [PythonParser._remove_empty_lines]: a row is kept when it has more
    than one field, or one field that is not blank. *)
Definition is_empty_row (row : list str) : bool :=
  match row with
  | [] => true
  | [t] => match strip t with [] => true | _ => false end
  | _ => false
  end.

Definition remove_empty_lines (rows : list (list str)) : list (list str) :=
  List.filter (fun r => negb (is_empty_row r)) rows.

(** The rows the reader works on. *)
Definition csv_rows (data : str) : list (list str) :=
  remove_empty_lines (map tokenize (readlines data)).

Fixpoint has_dup (names : list str) : bool :=
  match names with
  | [] => false
  | n :: ns => bool_decide (n ∈ ns) || has_dup ns
  end.

(** A parsed table: the column names and the rows, a cell being a raw
    token or missing. *)
Record DataFrame := mkDataFrame {
  columns : list str;
  body : list (list (option str))
}.

(** [lib.to_object_array(content, min_width)]: short rows are filled with
    missing cells on the right. *)
Definition pad (width : nat) (row : list str) : list (option str) :=
  map Some row ++ repeat None (width - length row)%nat.

(** [pd.read_csv(data_io, sep=r'\s+', names=names, header=None,
    engine='python', on_bad_lines='skip')].

    - duplicate [names] are rejected ("Duplicate names are not allowed.");
    - blank lines are skipped;
    - when the first row has more fields than there are names, the extra
      leading fields become the row index (the implicit index), and the
      expected width grows by as many;
    - a row with more fields than the expected width is a bad line and is
      skipped; a row with fewer is filled with missing cells. *)
Definition read_csv (names : list str) (data : str) : exn + DataFrame :=
  if has_dup names then inl ValueError
  else
    let rows := csv_rows data in
    let ncols := length names in
    let implicit :=
      match rows with
      | first :: _ => (length first - ncols)%nat
      | [] => 0%nat
      end in
    let col_len := (ncols + implicit)%nat in
    let good := List.filter (fun r => (length r <=? col_len)%nat) rows in
    inr {| columns := names;
           body := map (fun r => skipn implicit (pad col_len r)) good |}.

(** Position of a column label. *)
Fixpoint index_of (name : str) (names : list str) : nat :=
  match names with
  | [] => 0%nat
  | n :: ns => if decide (n = name) then 0%nat else S (index_of name ns)
  end.

(** [name in df.columns]. *)
Definition has_column (df : DataFrame) (name : str) : bool :=
  bool_decide (name ∈ columns df).

(** [df[name]] for a label that is present. *)
Definition getitem (df : DataFrame) (name : str) : list (option str) :=
  map (fun row => nth (index_of name (columns df)) row None) (body df).

(** *** Numeric conversion *)

Definition digit_val (c : ascii) : Z := Z.of_N (ord c) - 48.

Definition digits_val (ds : str) : Z :=
  fold_left (fun acc c => 10 * acc + digit_val c) ds 0.

Fixpoint drop_digits (s : str) : str :=
  match s with
  | [] => []
  | c :: s' => if isdigit c then drop_digits s' else s
  end.

Definition split_sign (s : str) : bool * str :=
  match s with
  | c :: r =>
    if Ascii.eqb c "-" then (true, r)
    else if Ascii.eqb c "+" then (false, r)
    else (false, s)
  | [] => (false, s)
  end.

Definition signed (negative : bool) (z : Z) : Z :=
  if negative then - z else z.

(** The exponent part of a literal: absent, or [e] or [E], an optional
    sign and at least one digit, up to the end of the token. *)
Definition exponent (s : str) : option Z :=
  match s with
  | [] => Some 0
  | c :: r =>
    if Ascii.eqb c "e" || Ascii.eqb c "E" then
      let (eneg, r1) := split_sign r in
      match take_digits r1, drop_digits r1 with
      | [], _ => None
      | ds, [] => Some (signed eneg (digits_val ds))
      | _, _ :: _ => None
      end
    else None
  end.

(** [m * 10 ^ e] as a rational. *)
Definition scale10 (m e : Z) : Q :=
  if 0 <=? e then (m * 10 ^ e) # 1 else m # Z.to_pos (10 ^ (- e)).

(** A decimal literal as the float parser of pandas reads it: optional
    sign, digits with an optional point (at least one digit in all) and
    an optional exponent.  The result is the value that the literal
    writes, before any rounding. *)
Definition parse_decimal (s : str) : option Q :=
  let (negative, s1) := split_sign s in
  let ip := take_digits s1 in
  let s2 := drop_digits s1 in
  let (fp, s3) :=
    match s2 with
    | c :: r => if Ascii.eqb c "." then (take_digits r, drop_digits r)
                else ([], s2)
    | [] => ([], s2)
    end in
  match ip ++ fp with
  | [] => None
  | ds =>
    match exponent s3 with
    | None => None
    | Some e =>
      Some (scale10 (signed negative (digits_val ds)) (e - Z.of_nat (length fp)))
    end
  end.

(** The words for an infinity, compared without case. *)
Definition parse_inf (s : str) : option bool :=
  let (negative, w) := split_sign s in
  if decide (lower w = lit "inf") then Some negative
  else if decide (lower w = lit "infinity") then Some negative
  else None.

(** The decimal values from which rounding to a 64-bit float overflows:
    those at least half a unit in the last place above the largest
    float. *)
Definition FLOAT_OVERFLOW : Z := 2 ^ 1024 - 2 ^ 970.

Definition overflows (q : Q) : bool :=
  (FLOAT_OVERFLOW * Z.pos (Qden q) <=? Z.abs (Qnum q))%Z.

(** The number stored for a decimal value: an infinity of the sign of
    the value when it overflows, and otherwise the number named by the
    value (its rounding is not modelled). *)
Definition to_double (q : Q) : value :=
  if overflows q then Inf (Qnum q <? 0)%Z else Num q.

(** The number stored for a token, [None] when the token is no number:
    the number of a decimal literal, or an infinity for one of the
    words. *)
Definition parse_float (s : str) : option value :=
  match parse_decimal s with
  | Some q => Some (to_double q)
  | None =>
    match parse_inf s with
    | Some negative => Some (Inf negative)
    | None => None
    end
  end.

Definition parse_bool (s : str) : option bool :=
  if decide (s ∈ [lit "True"; lit "TRUE"; lit "true"]) then Some true
  else if decide (s ∈ [lit "False"; lit "FALSE"; lit "false"]) then Some false
  else None.

Definition is_bool_cell (c : option str) : bool :=
  match c with
  | Some t => match parse_bool t with Some _ => true | None => false end
  | None => false
  end.

Definition bool_cell (c : option str) : value :=
  match c with
  | Some t => match parse_bool t with Some b => Bool b | None => NaN end
  | None => NaN
  end.

(** A missing cell and a token that is no number become NaN. *)
Definition numeric_cell (c : option str) : value :=
  match c with
  | Some t => match parse_float t with Some v => v | None => NaN end
  | None => NaN
  end.

(** The words that [read_csv] takes for a missing value
    ([STR_NA_VALUES]); the last one is the empty string. *)
Definition STR_NA_VALUES : list str :=
  map lit [ "-1.#IND"; "1.#QNAN"; "1.#IND"; "-1.#QNAN"; "#N/A N/A"; "#N/A";
            "N/A"; "n/a"; "NA"; "<NA>"; "#NA"; "NULL"; "null"; "NaN"; "-NaN";
            "nan"; "-nan"; "None" ]%string ++ [[]].

(** A cell that [read_csv] holds as missing: a cell that a short row
    lacks, or one of the words for a missing value. *)
Definition is_na_cell (c : option str) : bool :=
  match c with
  | Some t => bool_decide (t ∈ STR_NA_VALUES)
  | None => true
  end.

(** A boolean next to a missing value is counted as a float: 1.0 for
    true, 0.0 for false. *)
Definition bool_float_cell (c : option str) : value :=
  match c with
  | Some t =>
    match parse_bool t with
    | Some b => Num (if b then 1 else 0)
    | None => NaN
    end
  | None => NaN
  end.

(** [pd.to_numeric(series, errors='coerce')] applied to a column that
    [read_csv] produced.  [read_csv] already infers the type of a column.
    A column that has a word for true or false, and otherwise only such
    words and missing cells, holds booleans: without a missing cell it is
    a boolean column, which [to_numeric] leaves as it is; with one it is
    a column of objects, of which [to_numeric] makes floats (1.0, 0.0
    and NaN).  Any other column ends up cell by cell as the number of the
    token, or NaN. *)
Definition bool_column (series : list (option str)) : bool :=
  existsb is_bool_cell series
  && forallb (fun c => is_bool_cell c || is_na_cell c) series.

Definition to_numeric (series : list (option str)) : list value :=
  if bool_column series then
    if forallb is_bool_cell series then map bool_cell series
    else map bool_float_cell series
  else map numeric_cell series.

(** The table that is being extracted, column by column; [nrows] is the
    length of its index ([None] before the first column is set). *)
Record Frame := mkFrame {
  series : list (str * list value);
  nrows : option nat
}.

(** [pd.DataFrame()]. *)
Definition empty_frame : Frame := {| series := []; nrows := None |}.

Fixpoint set_series (name : str) (col : list value)
    (ss : list (str * list value)) : list (str * list value) :=
  match ss with
  | [] => [(name, col)]
  | (n, c) :: ss' =>
    if decide (n = name) then (n, col) :: ss'
    else (n, c) :: set_series name col ss'
  end.

(** [frame[name] = col] for a column with the index of the frame (the
    first column sets the index). *)
Definition setitem (f : Frame) (name : str) (col : list value) : Frame :=
  {| series := set_series name col (series f);
     nrows := match nrows f with
              | None => Some (length col)
              | Some n => Some n
              end |}.

Definition frame_len (f : Frame) : nat :=
  match nrows f with
  | None => 0%nat
  | Some n => n
  end.

(** Row [i] of a frame. *)
Definition row_at (f : Frame) (i : nat) : list value :=
  map (fun s => nth i (snd s) NaN) (series f).

Definition frame_rows (f : Frame) : list (list value) :=
  map (row_at f) (seq 0 (frame_len f)).

(** A table row by row: what [dropna] returns and [to_csv] writes. *)
Record Table := mkTable {
  header : list str;
  rows : list (list value)
}.

(** [frame.dropna()]: the rows without a NaN, in their order. *)
Definition dropna (f : Frame) : Table :=
  {| header := map fst (series f);
     rows := List.filter (forallb notna) (frame_rows f) |}.

(** [table.empty]: no column or no row. *)
Definition empty (t : Table) : bool :=
  match header t, rows t with
  | [], _ => true
  | _, [] => true
  | _, _ => false
  end.

End Pd.

Import Pd.

(** ** The world the script runs in: output files and the console *)

(** What the script prints, one constructor per message. *)
Inductive diag :=
| MsgBanner
| MsgInputCreated
| MsgOutputCreated
| MsgNoArchives
| MsgFound (n : nat)
| MsgDone
| MsgProcessing (base_name : str)
| MsgNotZip (base_name : str)
| MsgNoAcFiles (base_name : str)
| MsgFoundAc (n : nat)
| MsgParsing (sub_file_name : str)
| MsgDecodeFailed (sub_file_name : str)
| MsgBadZip (base_name : str)
| MsgArchiveError (base_name : str) (e : exn)
| SkipNoEndHeader
| SkipHeaderTooShort
| SkipNoDataAfterHeader
| WarnMissingColumns (missing_cols : list str)
| SkipNoNumericData
| MsgSuccess (n : nat) (csv_name : str)
| FailPermissionDenied (csv_name : str)
| SkipEmptyData
| FailParse (e : exn).

(** [files] holds the content of every file written so far; [deny] names
    the paths that cannot be opened for writing and the error that
    opening them raises. *)
Record world := mkWorld {
  files : gmap str str;
  deny : gmap str exn;
  console : list diag
}.

(** A computation that changes the world and returns or raises. *)
Definition M (A : Type) : Type := world -> (exn + A) * world.

Definition ret {A} (a : A) : M A := fun w => (inr a, w).

Definition raise {A} (e : exn) : M A := fun w => (inl e, w).

Definition bind {A B} (m : M A) (k : A -> M B) : M B :=
  fun w =>
    match m w with
    | (inr a, w') => k a w'
    | (inl e, w') => (inl e, w')
    end.

Declare Scope io_scope.
Delimit Scope io_scope with io.
Bind Scope io_scope with M.

Notation "x <- m ;; k" := (bind m (fun x => k))
  (at level 100, m at next level, k at level 200, right associativity)
  : io_scope.
Notation "m ;; k" := (bind m (fun _ => k))
  (at level 100, k at level 200, right associativity) : io_scope.

Local Open Scope io_scope.

(** [try: body except ...: handler]: the handler decides per exception
    whether it catches it ([Some]) or lets it pass ([None]). *)
Definition try_except {A} (body : M A) (handler : exn -> option (M A)) : M A :=
  fun w =>
    match body w with
    | (inr a, w') => (inr a, w')
    | (inl e, w') =>
      match handler e with
      | Some h => h w'
      | None => (inl e, w')
      end
    end.

Definition lift {A} (r : exn + A) : M A :=
  match r with
  | inl e => raise e
  | inr a => ret a
  end.

(** [print(...)]: the message goes to the console, which is taken to
    show every message (an encoding error of the console is not
    modelled). *)
Definition print (d : diag) : M unit :=
  fun w => (inr tt, {| files := files w; deny := deny w;
                       console := console w ++ [d] |}).

(** Opening [path] for writing and storing [content] in it. *)
Definition write_file (path content : str) : M unit :=
  fun w =>
    match deny w !! path with
    | Some e => (inl e, w)
    | None => (inr tt, {| files := <[path := content]> (files w);
                          deny := deny w; console := console w |})
    end.

(** [for x in xs: body(x)]. *)
Fixpoint for_each {A} (body : A -> M unit) (xs : list A) : M unit :=
  match xs with
  | [] => ret tt
  | x :: xs' => body x ;; for_each body xs'
  end.

(** ** Writing a table: [DataFrame.to_csv(path, index=False, sep=sep)] *)
Section Writer.

(** The text of the number stored for a decimal value, which the model
    leaves open. *)
Variable float_repr : Q -> str.

Definition value_repr (v : value) : str :=
  match v with
  | NaN => []
  | Inf false => lit "inf"
  | Inf true => lit "-inf"
  | Num q => float_repr q
  | Bool true => lit "True"
  | Bool false => lit "False"
  end.

Definition QUOTE : ascii := ascii_of_N 34.

(** The line terminator of [to_csv], [os.linesep]. *)
Definition linesep : str := [LF].

(** [csv.QUOTE_MINIMAL]: a field is quoted when it holds the delimiter,
    the quote character or a character of the line terminator. *)
Definition needs_quote (sep : ascii) (field : str) : bool :=
  existsb (fun c => Ascii.eqb c sep || Ascii.eqb c QUOTE
                    || bool_decide (c ∈ linesep)) field.

Definition quoted (field : str) : str :=
  QUOTE :: flat_map (fun c => if Ascii.eqb c QUOTE then [c; c] else [c]) field
    ++ [QUOTE].

Definition csv_field (sep : ascii) (field : str) : str :=
  if needs_quote sep field then quoted field else field.

(** [csv.writer.writerow]; a row of one empty field is written as a pair
    of quotes. *)
Definition csv_row (sep : ascii) (fields : list str) : str :=
  match fields with
  | [[]] => [QUOTE; QUOTE] ++ linesep
  | _ => join [sep] (map (csv_field sep) fields) ++ linesep
  end.

(** The header row, then the rows in their order. *)
Definition csv_text (sep : ascii) (t : Table) : str :=
  concat (map (csv_row sep) (header t :: map (map value_repr) (rows t))).

Definition to_csv (t : Table) (path : str) (sep : ascii) : M unit :=
  write_file path (csv_text sep t).

End Writer.

(** ** The script *)
Section Extractor.

Variable float_repr : Q -> str.

Definition INPUT_FOLDER : str := lit "./Input_Data_MDAT".
Definition OUTPUT_FOLDER : str := lit "./Output_Data".

(** An insertion-ordered dict, original column name to new name. *)
Definition TARGET_COLUMNS_MAP : list (str * str) :=
  [ (lit "Freq(Hz)", lit "frequency (Hz)");
    (lit "Z'(a)", lit "Z_real (Ohm)");
    (lit "Z''(b)", lit "Z_imag (Ohm)") ].

Definition END_HEADER : str := lit "End Header:".

(** Step 2 of [parse_ascii_content]: the index of the first line that
    holds the marker, [-1] when no line does ([i] counts the lines
    already passed). *)
Fixpoint find_end_header (i : Z) (lines : list str) : Z :=
  match lines with
  | [] => -1
  | line :: rest =>
    if contains END_HEADER line then i else find_end_header (i + 1) rest
  end.

(** Where steps 1 to 4 of [parse_ascii_content] end: at one of the three
    early returns, or with the column names and the text of the data
    block. *)
Inductive header_scan :=
| NoEndHeader
| HeaderTooShort
| NoDataAfterHeader
| Located (column_names : list str) (data : str).

Definition scan_header (file_content : str) : header_scan :=
  let lines := splitlines file_content in
  let end_header_index := find_end_header 0 lines in
  if end_header_index =? -1 then NoEndHeader
  else
    let header_line_index := end_header_index - 2 in
    if header_line_index <? 0 then HeaderTooShort
    else
      let header_line := strip (nth (Z.to_nat header_line_index) lines []) in
      let column_names := re_split_ws header_line in
      let data_start_line := end_header_index + 1 in
      if data_start_line >=? Z.of_nat (length lines) then NoDataAfterHeader
      else
        Located column_names
                (concat (skipn (Z.to_nat data_start_line) lines)).

(** Step 6: the target columns that are present, converted and renamed,
    and the names of those that are absent. *)
Definition extract_step (df : DataFrame) (acc : Frame * list str)
    (item : str * str) : Frame * list str :=
  let (extracted_df, missing_cols) := acc in
  let (original_name, new_name) := item in
  if has_column df original_name then
    (setitem extracted_df new_name (to_numeric (getitem df original_name)),
     missing_cols)
  else (extracted_df, missing_cols ++ [original_name]).

Definition extract_columns (df : DataFrame) : Frame * list str :=
  fold_left (extract_step df) TARGET_COLUMNS_MAP (empty_frame, []).

Definition csv_path (output_dir output_base_name : str) : str :=
  path_join output_dir (output_base_name ++ lit "_extracted.csv").

Definition txt_path (output_dir output_base_name : str) : str :=
  path_join output_dir (output_base_name ++ lit "_extracted.txt").

(** Steps 6 to 8. *)
Definition extract_and_save (df : DataFrame)
    (output_base_name output_dir : str) : M unit :=
  let (extracted_df, missing_cols) := extract_columns df in
  (match missing_cols with
   | [] => ret tt
   | _ => print (WarnMissingColumns missing_cols)
   end) ;;
  let extracted := dropna extracted_df in
  if empty extracted then print SkipNoNumericData
  else
    let output_csv_path := csv_path output_dir output_base_name in
    let output_txt_path := txt_path output_dir output_base_name in
    to_csv float_repr extracted output_csv_path "," ;;
    to_csv float_repr extracted output_txt_path TAB ;;
    print (MsgSuccess (length (rows extracted)) (basename output_csv_path)).

(** The body of the [try] of [parse_ascii_content]. *)
Definition parse_body (file_content output_base_name output_dir : str)
    : M unit :=
  match scan_header file_content with
  | NoEndHeader => print SkipNoEndHeader
  | HeaderTooShort => print SkipHeaderTooShort
  | NoDataAfterHeader => print SkipNoDataAfterHeader
  | Located column_names data =>
    df <- lift (read_csv column_names data) ;;
    extract_and_save df output_base_name output_dir
  end.

(** The [except] clauses of [parse_ascii_content], in their order; the
    last one catches every exception. *)
Definition parse_handler (output_base_name output_dir : str) (e : exn)
    : option (M unit) :=
  match e with
  | PermissionError =>
    Some (print (FailPermissionDenied
                   (basename (csv_path output_dir output_base_name))))
  | EmptyDataError => Some (print SkipEmptyData)
  | _ => Some (print (FailParse e))
  end.

Definition parse_ascii_content (file_content output_base_name output_dir : str)
    : M unit :=
  try_except (parse_body file_content output_base_name output_dir)
             (parse_handler output_base_name output_dir).

(** *** Archives *)

(** What [ZipFile.read] does for an entry: it returns the bytes, or
    raises (a failed CRC check raises [BadZipFile]). *)
Definition read_result : Type := exn + list Byte.byte.

(** An archive on disk: not a ZIP file at all, a file that [ZipFile]
    refuses to open, or a ZIP file with its entries in directory order. *)
Inductive zip_state :=
| NotZip
| OpenRaises (e : exn)
| Zip (entries : list (str * read_result)).

Record archive := mkArchive {
  file_path : str;
  on_disk : zip_state
}.

(** [zip_ref.read(name)]: of several entries of one name the last one is
    read. *)
Fixpoint zip_read (entries : list (str * read_result)) (name : str)
    : read_result :=
  match entries with
  | [] => inl KeyError
  | (n, r) :: rest =>
    if bool_decide (n = name) && negb (bool_decide (name ∈ map fst rest))
    then r else zip_read rest name
  end.

(** [file_data.decode('latin-1')]: every byte is the character of the
    same code, so this never raises and the script's fallback to UTF-8
    is not reached. *)
Definition decode_latin1 (file_data : list Byte.byte) : exn + str :=
  inr (map ascii_of_byte file_data).

(** Step 3 of the member loop. *)
Definition output_base_name {C : Type} {char : Char C}
    (mdat_base sub_file_name : list C) : list C :=
  match search_run sub_file_name with
  | Some run_str => mdat_base ++ [chr "-"] ++ run_str
  | None =>
    let sub_file_base := replace_char (chr "/") (chr "_") sub_file_name in
    fst (splitext sub_file_base)
  end.

(** [os.path.splitext(os.path.basename(file_path))[0]]. *)
Definition mdat_base {C : Type} {char : Char C} (file_path : list C) : list C :=
  fst (splitext (basename file_path)).

(** The body of the loop over the members. *)
Definition process_member (entries : list (str * read_result))
    (mdat_base output_dir sub_file_name : str) : M unit :=
  print (MsgParsing sub_file_name) ;;
  file_data <- lift (zip_read entries sub_file_name) ;;
  match decode_latin1 file_data with
  | inl _ => print (MsgDecodeFailed sub_file_name)
  | inr file_content =>
    parse_ascii_content file_content
      (output_base_name mdat_base sub_file_name) output_dir
  end.

(** The members whose name ends in [.z], in any case. *)
Definition ac_files (entries : list (str * read_result)) : list str :=
  List.filter (fun f => endswith (lit ".z") (lower f)) (map fst entries).

(** The body of the [try] of [process_mdat_file]. *)
Definition process_body (a : archive) (output_dir : str) : M unit :=
  let base_name := basename (file_path a) in
  match on_disk a with
  | NotZip => print (MsgNotZip base_name)
  | OpenRaises e => raise e
  | Zip entries =>
    match ac_files entries with
    | [] => print (MsgNoAcFiles base_name)
    | ac_files_in_zip =>
      print (MsgFoundAc (length ac_files_in_zip)) ;;
      for_each (process_member entries (mdat_base (file_path a)) output_dir)
               ac_files_in_zip
    end
  end.

Definition process_handler (base_name : str) (e : exn) : option (M unit) :=
  match e with
  | BadZipFile => Some (print (MsgBadZip base_name))
  | _ => Some (print (MsgArchiveError base_name e))
  end.

Definition process_mdat_file (a : archive) (output_dir : str) : M unit :=
  let base_name := basename (file_path a) in
  print (MsgProcessing base_name) ;;
  try_except (process_body a output_dir) (process_handler base_name).

(** [main]; the directory checks are given by two flags, and
    [files_to_process] is what the two globs find, without duplicates, in
    the order in which [list(set(...))] yields them, which Python does
    not fix. *)
Definition main (input_exists output_exists : bool)
    (files_to_process : list archive) : M unit :=
  print MsgBanner ;;
  if negb input_exists then print MsgInputCreated
  else
    (if negb output_exists then print MsgOutputCreated else ret tt) ;;
    match files_to_process with
    | [] => print MsgNoArchives
    | _ =>
      print (MsgFound (length files_to_process)) ;;
      for_each (fun a => process_mdat_file a OUTPUT_FOLDER) files_to_process ;;
      print MsgDone
    end.

End Extractor.

(** ** The statements of the specification, in its own words *)

(** A line holds the literal marker text. *)
Definition has_marker (line : str) : Prop :=
  exists pre post, line = pre ++ END_HEADER ++ post.

(** Line [i] is the first line with the marker. *)
Definition first_marker_at (lines : list str) (i : nat) : Prop :=
  (exists line, lines !! i = Some line /\ has_marker line) /\
  forall j line, (j < i)%nat -> lines !! j = Some line -> ~ has_marker line.

(** No line has the marker. *)
Definition marker_absent (lines : list str) : Prop :=
  forall line, line ∈ lines -> ~ has_marker line.

(** The whitespace separated tokens of a line: its maximal runs of
    characters that are not whitespace, from left to right. *)
Fixpoint words (s : str) : list str :=
  match s with
  | [] => []
  | c :: s' =>
    if isspace c then words s'
    else
      match s' with
      | [] => [[c]]
      | c' :: _ => if isspace c' then [c] :: words s' else push_char c (words s')
      end
  end.

(** Every line boundary of the text is LF, or CR LF. *)
Fixpoint plain_newlines (s : str) : bool :=
  match s with
  | [] => true
  | c :: s' =>
    (if is_linebreak c && negb (is_lf c)
     then is_cr c && match s' with c' :: _ => is_lf c' | [] => false end
     else true) && plain_newlines s'
  end.

(** The line ends in a line feed. *)
Definition ends_with_lf (line : str) : bool :=
  match rev line with
  | c :: _ => is_lf c
  | [] => false
  end.

(** The lines that the reader sees when it is handed the text of the
    lines [ls]: a line that does not end in a line feed is read together
    with the line after it. *)
Fixpoint reader_lines (ls : list str) : list str :=
  match ls with
  | [] => []
  | l :: rest =>
    if ends_with_lf l then l :: reader_lines rest
    else
      match reader_lines rest with
      | [] => [l]
      | r :: rs => (l ++ r) :: rs
      end
  end.

(** A line of [splitlines]: not empty, with no line feed before its last
    character. *)
Definition is_line (l : str) : Prop :=
  exists body c, l = body ++ [c] /\ Forall (fun x => is_lf x = false) body.

(** The table that [parse_ascii_content] writes for a text, if it gets
    that far. *)
Definition extracted_table (df : DataFrame) : Table :=
  dropna (fst (extract_columns df)).

Definition table_of (file_content : str) : option Table :=
  match scan_header file_content with
  | Located column_names data =>
    match read_csv column_names data with
    | inr df =>
      if empty (extracted_table df) then None else Some (extracted_table df)
    | inl _ => None
    end
  | _ => None
  end.


(** A run token: the letters of [Run] in any case, then one or more
    decimal digits. *)
Definition is_run_token {C : Type} {char : Char C} (t : list C) : Prop :=
  exists r u n ds,
    t = r :: u :: n :: ds /\
    match_nocase "R" r = true /\ match_nocase "u" u = true /\
    match_nocase "n" n = true /\
    ds <> [] /\ Forall (fun c => isdecimal c = true) ds.

(** The path holds a run token somewhere. *)
Definition contains_run {C : Type} {char : Char C} (s : list C) : Prop :=
  exists pre t post, s = pre ++ t ++ post /\ is_run_token t.

(** A run token of an 8-bit name, letter by letter. *)
Definition is_run_token_8bit (t : str) : Prop :=
  exists r ds, t = r ++ ds /\ lower r = lit "run" /\ ds <> [] /\
               Forall (fun c => isdigit c = true) ds.

(** The sign of a stored value is the sign that its token writes. *)
Definition sign_agrees (t : str) (v : value) : Prop :=
  match v with
  | Num q => if startswith (lit "-") t then (q <= 0)%Q else (0 <= q)%Q
  | Inf negative => negative = startswith (lit "-") t
  | _ => False
  end.

(** The target columns that the parsed table has. *)
Definition present_targets (df : DataFrame) : list (str * str) :=
  List.filter (fun item => has_column df (fst item)) TARGET_COLUMNS_MAP.

(** The target columns that it lacks. *)
Definition absent_targets (df : DataFrame) : list str :=
  map fst (List.filter (fun item => negb (has_column df (fst item)))
                       TARGET_COLUMNS_MAP).

(** The warning of step 6, if any. *)
Definition warnings (df : DataFrame) : list diag :=
  match absent_targets df with
  | [] => []
  | missing_cols => [WarnMissingColumns missing_cols]
  end.

(** Rows of fields written with a delimiter between the fields and a
    line end after each row, and nothing else. *)
Definition plain_text (sep : ascii) (cells : list (list str)) : str :=
  concat (map (fun fields => join [sep] fields ++ linesep) cells).

(** The comma becomes the tab; every other character stays. *)
Definition swap_delim (c : ascii) : ascii :=
  if Ascii.eqb c "," then TAB else c.

(** A text of a number that is not empty and has no comma, tab, quote or
    line feed in it. *)
Definition plain_char (c : ascii) : bool :=
  negb (Ascii.eqb c "," || Ascii.eqb c TAB || Ascii.eqb c QUOTE
        || Ascii.eqb c LF).

Definition plain_field (s : str) : bool :=
  match s with
  | [] => false
  | _ => forallb plain_char s
  end.

Definition plain_number (float_repr : Q -> str) (v : value) : bool :=
  match v with
  | Num q => plain_field (float_repr q)
  | _ => true
  end.

(** A text of whitespace only. *)
Definition all_space (ws : str) : Prop := Forall (fun c => isspace c = true) ws.

(** A computation only adds to the console. *)
Definition appends {A} (m : M A) : Prop :=
  forall w, exists ds, console (snd (m w)) = console w ++ ds.

(** The world after the script has printed [ds] and written nothing. *)
Definition say (w : world) (ds : list diag) : world :=
  {| files := files w; deny := deny w; console := console w ++ ds |}.

(** ** Sample inputs *)

(** A text of LF terminated lines. *)
Definition text (ls : list string) : str :=
  flat_map (fun l => lit l ++ [LF]) ls.

(** A number written as an exact fraction; it stands for the floating
    point text where a sample run needs one. *)
Definition exact_repr (q : Q) : str :=
  lit (NilEmpty.string_of_int (Z.to_int (Qnum q))) ++ lit "/"
  ++ lit (NilEmpty.string_of_uint (Pos.to_uint (Qden q))).

(** An empty output directory in which every path can be written. *)
Definition fresh : world := {| files := ∅; deny := ∅; console := [] |}.

(** A text of CR terminated lines. *)
Definition text_cr (ls : list string) : str :=
  flat_map (fun l => lit l ++ [CR]) ls.

(** A member whose lines end in a lone CR. *)
Definition sample_cr : str :=
  text_cr [ "Freq(Hz)  Z'(a)  Z''(b)"; "Hz  Ohm  Ohm"; "End Header:";
            "100  50.0  -20.0"; "200  40.0  -10.0" ]%string.

(** The member of the end-to-end scenario of the specification. *)
Definition sample_member : str :=
  text [ "Freq(Hz)  Z'(a)  Z''(b)"; "Hz  Ohm  Ohm"; "End Header:";
         "100  50.0  -20.0" ]%string.

(** Members that are skipped: no marker, the marker on the second line,
    the marker on the last line. *)
Definition sample_no_marker : str :=
  text [ "Freq(Hz)  Z'(a)  Z''(b)"; "100  50.0  -20.0" ]%string.

Definition sample_short_header : str :=
  text [ "Freq(Hz)  Z'(a)  Z''(b)"; "End Header:"; "100  50.0  -20.0" ]%string.

Definition sample_no_data : str :=
  text [ "Freq(Hz)  Z'(a)  Z''(b)"; "Hz  Ohm  Ohm"; "End Header:" ]%string.

(** A member whose header line names one column twice. *)
Definition sample_duplicate : str :=
  text [ "Freq(Hz)  Z'(a)  Z''(b)  Z''(b)"; "Hz  Ohm  Ohm  Ohm";
         "End Header:"; "100  50.0  -20.0  -30.0" ]%string.

(** A member with the token [inf] in the frequency column. *)
Definition sample_inf : str :=
  text [ "Freq(Hz)  Z'(a)  Z''(b)"; "Hz  Ohm  Ohm"; "End Header:";
         "inf  50.0  -20.0" ]%string.

(** A member with a negative imaginary part. *)
Definition sample_negative : str :=
  text [ "Freq(Hz)  Z'(a)  Z''(b)"; "Hz  Ohm  Ohm"; "End Header:";
         "1000  2.5  -1.23e-4" ]%string.

(** The table that [read_csv] returns for it. *)
Definition sample_negative_df : DataFrame :=
  {| columns := [lit "Freq(Hz)"; lit "Z'(a)"; lit "Z''(b)"];
     body := [[Some (lit "1000"); Some (lit "2.5"); Some (lit "-1.23e-4")]] |}.

(** A table with a positive and a negative infinity and a number beyond
    the range of floats among its tokens. *)
Definition sample_signs_df : DataFrame :=
  {| columns := [lit "Freq(Hz)"; lit "Z'(a)"; lit "Z''(b)"];
     body := [[Some (lit "1000"); Some (lit "2.5"); Some (lit "-1.23e-4")];
              [Some (lit "inf"); Some (lit "1e400"); Some (lit "-inf")]] |}.

(** Members with the words for true and false in a target column, with
    and without a missing cell in that column. *)
Definition sample_bool_words : str :=
  text [ "Freq(Hz)  Z'(a)  Z''(b)"; "Hz  Ohm  Ohm"; "End Header:";
         "1  2  True"; "3  4  False" ]%string.

Definition sample_bool_missing : str :=
  text [ "Freq(Hz)  Z'(a)  Z''(b)"; "Hz  Ohm  Ohm"; "End Header:";
         "1  2  True"; "3  4" ]%string.

(** A member with four columns whose second data row lacks its last
    token, and whose third data row has one token too many. *)
Definition sample_ragged : str :=
  text [ "Freq(Hz)  Z'(a)  Z''(b)  Time(s)"; "Hz  Ohm  Ohm  s";
         "End Header:"; "100  50.0  -20.0  0.5"; "200  40.0  -10.0";
         "300  30.0  -5.0  1.5  9" ]%string.

(** An output directory in which the tab separated file of the sample
    cannot be opened for writing. *)
Definition txt_locked : world :=
  {| files := ∅;
     deny := {[ lit "./Output_Data/sample-Run01_extracted.txt" := PermissionError ]};
     console := [] |}.

(** The bytes of a text. *)
Definition encode (s : str) : list Byte.byte := map byte_of_ascii s.

(** An archive whose first member has no header marker and whose second
    member is well formed. *)
Definition sample_entries : list (str * read_result) :=
  [ (lit "Run01/ac.z", inr (encode sample_no_marker));
    (lit "Run02/ac.z", inr (encode sample_member)) ].

Definition sample_archive : archive :=
  {| file_path := lit "./Input_Data_MDAT/sample.mdat";
     on_disk := Zip sample_entries |}.

(** An archive whose first member fails its CRC check when it is read. *)
Definition damaged_entries : list (str * read_result) :=
  [ (lit "Run01/ac.z", inl BadZipFile);
    (lit "Run02/ac.z", inr (encode sample_member)) ].

Definition damaged_archive : archive :=
  {| file_path := lit "./Input_Data_MDAT/damaged.mdat";
     on_disk := Zip damaged_entries |}.

(** ** Further statements about the script *)

(** A computation lays a set of writes [W] over the files: [W] and the
    result depend on the paths that refuse writing only, not on the files
    that are there or on the console; every path in [W] satisfies [P];
    the refused paths stay as they are. *)
Definition overlays {A} (P : str -> Prop) (m : M A) : Prop :=
  forall dn : gmap str exn,
  exists (r : exn + A) (W : gmap str str),
    (forall p c, W !! p = Some c -> P p) /\
    forall w, deny w = dn ->
      fst (m w) = r /\ files (snd (m w)) = W ∪ files w /\
      deny (snd (m w)) = dn.

(** The two paths of a member with base name [base]. *)
Definition member_path (out base p : str) : Prop :=
  p = csv_path out base \/ p = txt_path out base.

(** A path directly inside [OUTPUT_FOLDER] whose name ends in
    [_extracted.csv] or [_extracted.txt]. *)
Definition in_output_folder (p : str) : Prop :=
  exists base,
    ("/"%char ∉ base) /\
    (p = OUTPUT_FOLDER ++ lit "/" ++ base ++ lit "_extracted.csv"
     \/ p = OUTPUT_FOLDER ++ lit "/" ++ base ++ lit "_extracted.txt").

(** A token: not empty, and without whitespace. *)
Definition is_token (t : str) : Prop :=
  t <> [] /\ Forall (fun c => isspace c = false) t.

(** An output directory in which the comma separated file of the sample
    cannot be opened for writing, while the tab separated file can. *)
Definition csv_locked : world :=
  {| files := ∅;
     deny := {[ lit "./Output_Data/sample-Run01_extracted.csv" := OSError ]};
     console := [] |}.

(** A member whose header names none of the target columns. *)
Definition sample_other_columns : str :=
  text [ "Time(s)  E(V)  I(A)"; "s  V  A"; "End Header:";
         "0.5  1.0  2.0" ]%string.

(** An archive with two members in the folder of one run. *)
Definition colliding_entries : list (str * read_result) :=
  [ (lit "Run01/first.z", inr (encode sample_member));
    (lit "Run01/second.z", inr (encode sample_negative)) ].

(** Two archives with a member of the same path, which has no run
    token. *)
Definition first_fallback : archive :=
  {| file_path := lit "./Input_Data_MDAT/first.mdat";
     on_disk := Zip [(lit "data/ac.z", inr (encode sample_member))] |}.

Definition second_fallback : archive :=
  {| file_path := lit "./Input_Data_MDAT/second.mdat";
     on_disk := Zip [(lit "data/ac.z", inr (encode sample_negative))] |}.

(** A computation adds to the console only messages that satisfy
    [P]. *)
Definition prints_only {A} (P : diag -> Prop) (m : M A) : Prop :=
  forall w, exists ds, console (snd (m w)) = console w ++ ds /\ Forall P ds.

(** A message is the announcement of a member only for a member of
    [names]. *)
Definition announces_only (names : list str) (d : diag) : Prop :=
  forall name, d = MsgParsing name -> name ∈ names.

(** The number of line feeds of a text. *)
Definition count_lf (s : str) : nat := length (List.filter is_lf s).

(** What [main] prints first when the input folder is there. *)
Definition opening (output_exists : bool) : list diag :=
  MsgBanner :: (if output_exists then [] else [MsgOutputCreated]).

(** * Proofs *)

(** ** Substring search *)

Lemma startswith_spec (p s : str) :
  startswith p s = true <-> exists post, s = p ++ post.
Proof.
  revert s. induction p as [|a p IH]; intros s; simpl.
  - split; eauto.
  - destruct s as [|b s].
    + split; [discriminate | intros [post H]; discriminate].
    + rewrite andb_true_iff, IH. split.
      * intros [Hab [post ->]]. apply Ascii.eqb_eq in Hab. subst. eauto.
      * intros [post H]. injection H as -> ->. split; [apply Ascii.eqb_refl | eauto].
Qed.

Lemma contains_spec (p s : str) :
  contains p s = true <-> exists pre post, s = pre ++ p ++ post.
Proof.
  induction s as [|c s IH]; simpl.
  - rewrite orb_false_r, startswith_spec. split.
    + intros [post H]. exists [], post. exact H.
    + intros [pre [post H]]. destruct pre; [eauto | discriminate].
  - rewrite orb_true_iff, startswith_spec, IH. split.
    + intros [[post H] | [pre [post H]]].
      * exists [], post. exact H.
      * exists (c :: pre), post. simpl. now rewrite H.
    + intros [[|c' pre] [post H]].
      * left. eauto.
      * right. injection H as _ H. eauto.
Qed.

Lemma contains_marker (line : str) :
  contains END_HEADER line = true <-> has_marker line.
Proof. apply contains_spec. Qed.

Lemma find_end_header_absent (lines : list str) (k : Z) :
  marker_absent lines -> find_end_header k lines = -1.
Proof.
  revert k. induction lines as [|l ls IH]; intros k H; simpl; [reflexivity|].
  destruct (contains END_HEADER l) eqn:E.
  - apply contains_marker in E. exfalso. apply (H l); [left | exact E].
  - apply IH. intros x Hx. apply H. now right.
Qed.

Lemma find_end_header_first (lines : list str) (i : nat) (k : Z) :
  first_marker_at lines i -> find_end_header k lines = k + Z.of_nat i.
Proof.
  revert i k. induction lines as [|l ls IH]; intros i k [[line [Hi Hm]] Hfirst].
  - discriminate.
  - simpl. destruct i as [|i].
    + simpl in Hi. injection Hi as ->.
      apply contains_marker in Hm. rewrite Hm. lia.
    + destruct (contains END_HEADER l) eqn:E.
      * apply contains_marker in E. exfalso.
        apply (Hfirst 0%nat l); [lia | reflexivity | exact E].
      * rewrite (IH i (k + 1)); [lia|]. split.
        -- exists line. split; [exact Hi | exact Hm].
        -- intros j x Hj Hx. apply (Hfirst (S j) x); [lia | exact Hx].
Qed.

Lemma find_end_header_range (lines : list str) (k : Z) :
  find_end_header k lines = -1 \/
  k <= find_end_header k lines < k + Z.of_nat (length lines).
Proof.
  revert k. induction lines as [|l ls IH]; intros k; simpl; [now left|].
  destruct (contains END_HEADER l); [right; lia|].
  destruct (IH (k + 1)) as [H | H]; [now left | right; lia].
Qed.

(** ** Stripping and splitting on whitespace *)

Lemma lstrip_spec (s : str) :
  exists ws, s = ws ++ lstrip s /\ all_space ws /\
             starts_with_space (lstrip s) = false.
Proof.
  induction s as [|c s [ws [H1 [H2 H3]]]]; simpl.
  - exists []. repeat split. constructor.
  - destruct (isspace c) eqn:E.
    + exists (c :: ws). repeat split; [simpl; now rewrite <- H1 | | exact H3].
      constructor; assumption.
    + exists []. repeat split; [constructor | simpl; exact E].
Qed.

Lemma rstrip_spec (s : str) :
  exists ws, s = rstrip s ++ ws /\ all_space ws /\
             starts_with_space (rev (rstrip s)) = false.
Proof.
  unfold rstrip. destruct (lstrip_spec (rev s)) as [ws [H1 [H2 H3]]].
  exists (rev ws). repeat split.
  - rewrite <- rev_app_distr, <- H1. symmetry. apply rev_involutive.
  - unfold all_space. apply Forall_rev. exact H2.
  - rewrite rev_involutive. exact H3.
Qed.

Lemma starts_with_space_app (s t : str) :
  s <> [] -> starts_with_space (s ++ t) = starts_with_space s.
Proof. destruct s; [congruence | reflexivity]. Qed.

Lemma strip_no_leading_space (s : str) : starts_with_space (strip s) = false.
Proof.
  unfold strip. destruct (lstrip_spec s) as [_ [_ [_ H]]].
  destruct (rstrip_spec (lstrip s)) as [ws [H1 _]].
  destruct (rstrip (lstrip s)) as [|c r] eqn:E; [reflexivity|].
  rewrite H1 in H. exact H.
Qed.

Lemma strip_no_trailing_space (s : str) :
  starts_with_space (rev (strip s)) = false.
Proof.
  unfold strip. destruct (rstrip_spec (lstrip s)) as [_ [_ [_ H]]]. exact H.
Qed.

Lemma words_all_space (ws : str) : all_space ws -> words ws = [].
Proof.
  induction 1 as [|c ws Hc _ IH]; simpl; [reflexivity|]. now rewrite Hc.
Qed.

Lemma words_app_space (t ws : str) : all_space ws -> words (t ++ ws) = words t.
Proof.
  intros Hws. induction t as [|c t IH]; simpl.
  - now apply words_all_space.
  - destruct (isspace c); [exact IH|].
    destruct t as [|c' t]; simpl.
    + destruct Hws as [|d ws Hd Hws]; [reflexivity|].
      rewrite Hd. f_equal. apply words_all_space. now constructor.
    + simpl in IH. rewrite IH. reflexivity.
Qed.

Lemma words_space_app (ws t : str) : all_space ws -> words (ws ++ t) = words t.
Proof.
  induction 1 as [|c ws Hc _ IH]; simpl; [reflexivity|]. now rewrite Hc.
Qed.

(** Stripping a line keeps its tokens. *)
Lemma words_strip (s : str) : words (strip s) = words s.
Proof.
  unfold strip.
  destruct (rstrip_spec (lstrip s)) as [ws [H1 [H2 _]]].
  destruct (lstrip_spec s) as [ws' [H1' [H2' _]]].
  rewrite H1' at 2. rewrite (words_space_app _ _ H2').
  rewrite H1 at 2. now rewrite (words_app_space _ _ H2).
Qed.

(** On a text that does not end in whitespace, [re.split] returns the
    tokens, after an empty piece when the text starts with whitespace. *)
Lemma re_split_ws_words (s : str) :
  s <> [] -> starts_with_space (rev s) = false ->
  re_split_ws s = if starts_with_space s then [] :: words s else words s.
Proof.
  induction s as [|c s IH]; [congruence|]. intros _ Hend.
  destruct s as [|c' s].
  - simpl in *. rewrite Hend. reflexivity.
  - assert (IH' : re_split_ws (c' :: s) =
                  if starts_with_space (c' :: s) then [] :: words (c' :: s)
                  else words (c' :: s)).
    { apply IH; [congruence|].
      change (rev (c :: c' :: s)) with (rev (c' :: s) ++ [c]) in Hend.
      rewrite starts_with_space_app in Hend; [exact Hend|].
      simpl. intros H. apply app_eq_nil in H. destruct H; discriminate. }
    change (re_split_ws (c :: c' :: s)) with
      (if isspace c
       then if starts_with_space (c' :: s) then re_split_ws (c' :: s)
            else [] :: re_split_ws (c' :: s)
       else push_char c (re_split_ws (c' :: s))).
    change (words (c :: c' :: s)) with
      (if isspace c then words (c' :: s)
       else if isspace c' then [c] :: words (c' :: s)
            else push_char c (words (c' :: s))).
    rewrite IH'. change (starts_with_space (c :: c' :: s)) with (isspace c).
    change (starts_with_space (c' :: s)) with (isspace c').
    destruct (isspace c), (isspace c'); reflexivity.
Qed.

(** The column names are the tokens of the header line; a blank header
    line gives the single name [''] . *)
Lemma column_names_words (line : str) :
  re_split_ws (strip line) =
  match words line with
  | [] => [[]]
  | ws => ws
  end.
Proof.
  destruct (strip line) as [|c t] eqn:E.
  - rewrite <- (words_strip line), E. reflexivity.
  - rewrite <- (words_strip line), <- E.
    rewrite re_split_ws_words.
    + rewrite strip_no_leading_space. rewrite E. simpl.
      pose proof (strip_no_leading_space line) as H. rewrite E in H.
      simpl in H. rewrite H. destruct t as [|c' t]; [reflexivity|].
      destruct (isspace c'); [reflexivity|].
      destruct (words (c' :: t)); reflexivity.
    + rewrite E. congruence.
    + apply strip_no_trailing_space.
Qed.

(** ** Lines *)

Lemma concat_push_char (c : ascii) (ls : list str) :
  concat (push_char c ls) = c :: concat ls.
Proof. destruct ls; reflexivity. Qed.

Lemma concat_readlines (s : str) : concat (readlines s) = s.
Proof.
  induction s as [|c s IH]; [reflexivity|].
  cbn [readlines]. destruct (is_lf c).
  - cbn [concat app]. now rewrite IH.
  - rewrite concat_push_char. now rewrite IH.
Qed.

Lemma readlines_tail (s l : str) (ls : list str) :
  readlines s = l :: ls -> readlines (concat ls) = ls.
Proof.
  revert l ls. induction s as [|c s IH]; intros l ls; simpl; [discriminate|].
  destruct (is_lf c).
  - intros H. injection H as _ <-. now rewrite concat_readlines.
  - destruct (readlines s) as [|l' ls'] eqn:E; simpl; intros H.
    + injection H as _ <-. reflexivity.
    + injection H as _ <-. exact (IH l' ls' eq_refl).
Qed.

(** Reading back the lines from line [k] on gives those lines. *)
Lemma readlines_skipn (k : nat) (s : str) :
  readlines (concat (skipn k (readlines s))) = skipn k (readlines s).
Proof.
  revert s. induction k as [|k IH]; intros s.
  - rewrite skipn_O. now rewrite concat_readlines.
  - destruct (readlines s) as [|l ls] eqn:E; [reflexivity|].
    rewrite skipn_cons. pose proof (readlines_tail s l ls E) as Hls.
    rewrite <- Hls. apply IH.
Qed.

Lemma is_lf_linebreak (c : ascii) : is_lf c = true -> is_linebreak c = true.
Proof.
  unfold is_lf, is_linebreak. intros H. apply N.eqb_eq in H. now rewrite H.
Qed.

Lemma is_lf_not_cr (c : ascii) : is_lf c = true -> is_cr c = false.
Proof.
  unfold is_lf, is_cr. intros H. apply N.eqb_eq in H. now rewrite H.
Qed.

(** On a text whose line boundaries are LF or CR LF, [splitlines] and
    the line iteration of [io.StringIO] see the same lines. *)
Lemma splitlines_plain_bounded (n : nat) (s : str) :
  (length s <= n)%nat -> plain_newlines s = true -> splitlines s = readlines s.
Proof.
  revert s. induction n as [|n IH]; intros s Hn Hp.
  - destruct s; [reflexivity | simpl in Hn; lia].
  - destruct s as [|c s]; [reflexivity|].
    simpl in Hn. simpl in Hp. apply andb_true_iff in Hp. destruct Hp as [Hc Hp].
    simpl. destruct (is_lf c) eqn:Elf.
    + rewrite (is_lf_linebreak c Elf), (is_lf_not_cr c Elf).
      destruct s as [|c' s]; [reflexivity|]. simpl andb. cbv iota.
      f_equal. apply IH; [simpl in *; lia | exact Hp].
    + destruct (is_linebreak c) eqn:Elb.
      * simpl in Hc. apply andb_true_iff in Hc. destruct Hc as [Hcr Hc].
        destruct s as [|c' s]; [discriminate|].
        rewrite Hcr, Hc. simpl. rewrite Hc. simpl.
        simpl in Hp. apply andb_true_iff in Hp. destruct Hp as [_ Hp].
        f_equal. apply IH; [simpl in *; lia | exact Hp].
      * f_equal. apply IH; [lia | exact Hp].
Qed.

Lemma splitlines_plain (s : str) :
  plain_newlines s = true -> splitlines s = readlines s.
Proof. apply (splitlines_plain_bounded (length s)). lia. Qed.

(** ** Steps 1 to 4 *)

Lemma scan_header_located (file_content : str) (i : nat) :
  first_marker_at (splitlines file_content) i ->
  (2 <= i)%nat -> (i + 1 < length (splitlines file_content))%nat ->
  scan_header file_content =
  Located (re_split_ws (strip (nth (i - 2) (splitlines file_content) [])))
          (concat (skipn (i + 1) (splitlines file_content))).
Proof.
  intros Hfirst H2 Hlen. unfold scan_header.
  rewrite (find_end_header_first _ i 0 Hfirst).
  destruct (Z.eqb_spec (0 + Z.of_nat i) (-1)); [lia|].
  destruct (Z.ltb_spec (0 + Z.of_nat i - 2) 0); [lia|].
  destruct (Z.geb_spec (0 + Z.of_nat i + 1)
              (Z.of_nat (length (splitlines file_content)))); [lia|].
  replace (Z.to_nat (0 + Z.of_nat i - 2)) with (i - 2)%nat by lia.
  replace (Z.to_nat (0 + Z.of_nat i + 1)) with (i + 1)%nat by lia.
  reflexivity.
Qed.

Lemma scan_header_skips (file_content : str) :
  marker_absent (splitlines file_content) \/
  (exists i, first_marker_at (splitlines file_content) i /\
             ((i < 2)%nat \/ (length (splitlines file_content) <= i + 1)%nat)) ->
  scan_header file_content = NoEndHeader \/
  scan_header file_content = HeaderTooShort \/
  scan_header file_content = NoDataAfterHeader.
Proof.
  intros [Habs | [i [Hfirst Hi]]]; unfold scan_header.
  - rewrite (find_end_header_absent _ 0 Habs). now left.
  - rewrite (find_end_header_first _ i 0 Hfirst).
    destruct (Z.eqb_spec (0 + Z.of_nat i) (-1)); [lia|].
    destruct (Z.ltb_spec (0 + Z.of_nat i - 2) 0); [right; now left|].
    destruct (Z.geb_spec (0 + Z.of_nat i + 1)
                (Z.of_nat (length (splitlines file_content))));
      [right; now right | lia].
Qed.

Lemma find_end_header_sound (lines : list str) (k : Z) (i : nat) :
  find_end_header k lines = k + Z.of_nat i -> 0 <= k ->
  first_marker_at lines i.
Proof.
  revert k i. induction lines as [|l ls IH]; intros k i H Hk; simpl in H.
  - lia.
  - destruct (contains END_HEADER l) eqn:E.
    + assert (i = 0%nat) as -> by lia. split.
      * exists l. split; [reflexivity | now apply contains_marker].
      * intros j x Hj. lia.
    + destruct (find_end_header_range ls (k + 1)) as [Hr | Hr]; [lia|].
      destruct i as [|i]; [lia|].
      destruct (IH (k + 1) i) as [[line [Hi Hm]] Hfirst]; [lia | lia |].
      split.
      * exists line. split; [exact Hi | exact Hm].
      * intros [|j] x Hj Hx.
        -- simpl in Hx. injection Hx as <-. intros Hm'.
           apply contains_marker in Hm'. congruence.
        -- apply (Hfirst j x); [lia | exact Hx].
Qed.

Lemma find_end_header_absent_sound (lines : list str) (k : Z) :
  find_end_header k lines = -1 -> 0 <= k -> marker_absent lines.
Proof.
  revert k. induction lines as [|l ls IH]; intros k H Hk x Hx; simpl in H.
  - inversion Hx.
  - destruct (contains END_HEADER l) eqn:E; [lia|].
    apply elem_of_cons in Hx. destruct Hx as [-> | Hx].
    + intros Hm. apply contains_marker in Hm. congruence.
    + apply (IH (k + 1)); [exact H | lia | exact Hx].
Qed.

(** ** Running the parser *)

Lemma has_dup_spec (names : list str) : has_dup names = true <-> ~ NoDup names.
Proof.
  induction names as [|n ns IH]; simpl.
  - split; [discriminate | intros H; exfalso; apply H; constructor].
  - rewrite orb_true_iff, bool_decide_eq_true, IH, NoDup_cons. split.
    + intros [H | H] [H1 H2]; contradiction.
    + intros H. destruct (decide (n ∈ ns)) as [Hin | Hin]; [now left|].
      right. intros Hnd. apply H. now split.
Qed.

(** ** The lines of the reader *)

Lemma not_linebreak_not_lf (c : ascii) : is_linebreak c = false -> is_lf c = false.
Proof.
  intros H. destruct (is_lf c) eqn:E; [|reflexivity].
  apply is_lf_linebreak in E. congruence.
Qed.

Lemma is_line_single (c : ascii) : is_line [c].
Proof. exists [], c. split; [reflexivity | constructor]. Qed.

Lemma is_line_push (c : ascii) (ls : list str) :
  is_lf c = false -> Forall is_line ls -> Forall is_line (push_char c ls).
Proof.
  intros Hc Hls. destruct Hls as [|l ls [body [x [-> Hb]]] Hls]; cbn.
  - constructor; [apply is_line_single | constructor].
  - constructor; [|exact Hls]. exists (c :: body), x.
    split; [reflexivity | now constructor].
Qed.

Lemma splitlines_lines_bounded (n : nat) (s : str) :
  (length s <= n)%nat -> Forall is_line (splitlines s).
Proof.
  revert s. induction n as [|n IH]; intros s Hn.
  - destruct s; [constructor | simpl in Hn; lia].
  - destruct s as [|c s]; [constructor|]. simpl in Hn. cbn [splitlines].
    destruct (is_linebreak c) eqn:Elb.
    + destruct s as [|c' s].
      * constructor; [apply is_line_single | constructor].
      * destruct (is_cr c && is_lf c') eqn:E.
        -- constructor; [|apply IH; simpl in Hn; lia].
           exists [c], c'. split; [reflexivity|]. constructor; [|constructor].
           apply andb_true_iff in E. destruct E as [E _].
           destruct (is_lf c) eqn:Elf; [|reflexivity].
           apply is_lf_not_cr in Elf. congruence.
        -- constructor; [apply is_line_single | apply IH; lia].
    + apply is_line_push; [now apply not_linebreak_not_lf | apply IH; lia].
Qed.

(** Every line of [splitlines] is a line. *)
Lemma splitlines_lines (s : str) : Forall is_line (splitlines s).
Proof. apply (splitlines_lines_bounded (length s)). lia. Qed.

Lemma readlines_push (body s : str) :
  Forall (fun x => is_lf x = false) body ->
  readlines (body ++ s) = fold_right push_char (readlines s) body.
Proof.
  induction 1 as [|c body Hc _ IH]; [reflexivity|].
  cbn [app readlines fold_right]. now rewrite Hc, IH.
Qed.

Lemma fold_push_cons (body l : str) (ls : list str) :
  fold_right push_char (l :: ls) body = (body ++ l) :: ls.
Proof.
  induction body as [|c body IH]; [reflexivity|].
  cbn [fold_right]. now rewrite IH.
Qed.

Lemma fold_push_nil (body : str) :
  body <> [] -> fold_right push_char [] body = [body].
Proof.
  induction body as [|c body IH]; [congruence|]. intros _.
  cbn [fold_right]. destruct body as [|c' body]; [reflexivity|].
  rewrite IH by discriminate. reflexivity.
Qed.

(** The reader, handed the text of some lines, reads a line that does
    not end in a line feed together with the line after it. *)
Lemma readlines_concat (ls : list str) :
  Forall is_line ls -> readlines (concat ls) = reader_lines ls.
Proof.
  induction 1 as [|l ls [body [c [-> Hb]]] _ IH]; [reflexivity|].
  cbn [concat reader_lines]. unfold ends_with_lf.
  rewrite rev_app_distr. cbn [rev app]. rewrite <- IH.
  destruct (is_lf c) eqn:Elf.
  - rewrite <- app_assoc. cbn [app]. rewrite (readlines_push _ _ Hb).
    cbn [readlines]. rewrite Elf. apply fold_push_cons.
  - rewrite readlines_push.
    2:{ apply Forall_app. split; [exact Hb | now repeat constructor]. }
    destruct (readlines (concat ls)) as [|r rs].
    + apply fold_push_nil. now destruct body.
    + apply fold_push_cons.
Qed.

Lemma Forall_skipn {A} (P : A -> Prop) (k : nat) (l : list A) :
  Forall P l -> Forall P (skipn k l).
Proof.
  intros H. revert k. induction H as [|x l Hx Hl IH]; intros k.
  - rewrite skipn_nil. constructor.
  - destruct k as [|k]; [now constructor | apply IH].
Qed.

(** A table of full rows is read as it stands. *)
Lemma read_csv_full_rows (names : list str) (data : str) :
  NoDup names ->
  Forall (fun row => length row = length names) (csv_rows data) ->
  read_csv names data =
  inr {| columns := names; body := map (map Some) (csv_rows data) |}.
Proof.
  intros Hnd Hrows. unfold read_csv.
  destruct (has_dup names) eqn:Ed.
  { apply has_dup_spec in Ed. contradiction. }
  set (implicit := match csv_rows data with
                   | first :: _ => (length first - length names)%nat
                   | [] => 0%nat
                   end).
  assert (Hi : implicit = 0%nat).
  { unfold implicit. destruct Hrows as [|first rest Hf _]; [reflexivity | lia]. }
  rewrite Hi, Nat.add_0_r. clear Hi implicit. do 2 f_equal.
  induction Hrows as [|row rest Hrow _ IH]; [reflexivity|].
  cbn [List.filter]. rewrite Hrow, Nat.leb_refl. cbn [map]. rewrite IH.
  f_equal. unfold pad. rewrite Hrow, Nat.sub_diag. cbn [repeat].
  now rewrite app_nil_r, skipn_O.
Qed.




(** C2: when no line has the marker, or the first line that has it has
    an index below 2, or no line follows it, the parser prints one of its
    three skip messages, writes no file, and returns without raising. *)
Theorem C2_malformed_header_skipped (float_repr : Q -> str)
    (file_content base out : str) (w : world) :
  let lines := splitlines file_content in
  marker_absent lines \/
  (exists i, first_marker_at lines i /\
             ((i < 2)%nat \/ (length lines <= i + 1)%nat)) ->
  exists reason,
    reason ∈ [SkipNoEndHeader; SkipHeaderTooShort; SkipNoDataAfterHeader]
    /\ parse_ascii_content float_repr file_content base out w
       = (inr tt, say w [reason])
    /\ table_of file_content = None.
Proof.
  intros lines H. unfold parse_ascii_content, parse_body, table_of.
  destruct (scan_header_skips file_content H) as [E | [E | E]]; rewrite E.
  - exists SkipNoEndHeader. split; [repeat constructor | split; reflexivity].
  - exists SkipHeaderTooShort. split; [repeat constructor | split; reflexivity].
  - exists SkipNoDataAfterHeader.
    split; [repeat constructor | split; reflexivity].
Qed.

Lemma C2_witness :
  exists reason,
    reason ∈ [SkipNoEndHeader; SkipHeaderTooShort; SkipNoDataAfterHeader]
    /\ parse_ascii_content exact_repr sample_short_header
         (lit "sample-Run01") OUTPUT_FOLDER fresh
       = (inr tt, say fresh [reason])
    /\ table_of sample_short_header = None.
Proof.
  apply (C2_malformed_header_skipped exact_repr sample_short_header).
  right. exists 1%nat. split.
  - apply (find_end_header_sound _ 0 1); [vm_compute; reflexivity | lia].
  - left. lia.
Defined.

(** ** The run token of a member path *)

Lemma take_digits_all (s : str) : Forall (fun c => isdigit c = true) (take_digits s).
Proof.
  induction s as [|c s IH]; simpl; [constructor|].
  destruct (isdigit c) eqn:E; constructor; assumption.
Qed.

(** The match of the letters of [Run] on 8-bit characters. *)
Lemma run_letters (r u n : ascii) :
  eqb_nocase "R" r && eqb_nocase "u" u && eqb_nocase "n" n = true <->
  lower [r; u; n] = lit "run".
Proof.
  unfold eqb_nocase. rewrite !andb_true_iff, !Ascii.eqb_eq.
  change (lower_char "R") with "r"%char.
  change (lower_char "u") with "u"%char.
  change (lower_char "n") with "n"%char.
  simpl. split.
  - intros [[<- <-] <-]. reflexivity.
  - intros H. injection H as -> -> ->. auto.
Qed.

(** On 8-bit names a run token is the letters of [Run] in any case, then
    one or more ASCII digits. *)
Lemma is_run_token_8bit_spec (t : str) : is_run_token t <-> is_run_token_8bit t.
Proof.
  split.
  - intros [r [u [n [ds [-> [Hr [Hu [Hn [Hne Hds]]]]]]]]].
    exists [r; u; n], ds. split; [reflexivity|].
    split; [|split; [exact Hne | exact Hds]].
    apply run_letters. cbn in Hr, Hu, Hn. now rewrite Hr, Hu, Hn.
  - intros [r [ds [-> [Hr [Hne Hds]]]]].
    destruct r as [|r [|u [|n [|x r']]]]; try discriminate.
    apply run_letters in Hr. rewrite !andb_true_iff in Hr.
    destruct Hr as [[Hr Hu] Hn].
    exists r, u, n, ds. repeat split; assumption.
Qed.

Section Names.

Context {C : Type} {char : Char C}.

#[local] Instance char_eq_decision : EqDecision C := char_eq_dec.

Lemma take_decimals_all (s : list C) :
  Forall (fun c => isdecimal c = true) (take_decimals s).
Proof.
  induction s as [|c s IH]; simpl; [constructor|].
  destruct (isdecimal c) eqn:E; constructor; assumption.
Qed.

Lemma take_decimals_app (ds post : list C) :
  Forall (fun c => isdecimal c = true) ds ->
  take_decimals (ds ++ post) = ds ++ take_decimals post.
Proof.
  induction 1 as [|c ds Hc _ IH]; simpl; [reflexivity|].
  now rewrite Hc, IH.
Qed.

(** The digits at the start of a text, and the rest, which starts with no
    digit. *)
Lemma take_decimals_split (s : list C) :
  exists post, s = take_decimals s ++ post /\ take_decimals post = [].
Proof.
  induction s as [|c s [post [Hs Hp]]].
  - exists []. split; reflexivity.
  - simpl. destruct (isdecimal c) eqn:E.
    + exists post. split; [simpl; now rewrite <- Hs | exact Hp].
    + exists (c :: s). split; [reflexivity | simpl; now rewrite E].
Qed.

(** A match at the start of [s] is a run token that takes all the digits
    that follow the letters. *)
Lemma match_run_some (s m : list C) :
  match_run s = Some m ->
  exists post, s = m ++ post /\ is_run_token m /\ take_decimals post = [].
Proof.
  destruct s as [|r [|u [|n rest]]]; simpl; try discriminate.
  destruct (match_nocase "R" r) eqn:Er; [|discriminate].
  destruct (match_nocase "u" u) eqn:Eu; [|discriminate].
  destruct (match_nocase "n" n) eqn:En; [|discriminate].
  cbn [andb].
  destruct (take_decimals_split rest) as [post [Hrest Hpost]].
  destruct (take_decimals rest) as [|d ds] eqn:Ed; [discriminate|].
  intros H. injection H as <-. exists post. split; [|split].
  - rewrite Hrest at 1. reflexivity.
  - exists r, u, n, (d :: ds). split; [reflexivity|].
    repeat (split; [assumption|]). split; [discriminate|].
    rewrite <- Ed. apply take_decimals_all.
  - exact Hpost.
Qed.

Lemma match_run_token (t post : list C) :
  is_run_token t -> match_run (t ++ post) = Some (t ++ take_decimals post).
Proof.
  intros [r [u [n [ds [-> [Hr [Hu [Hn [Hne Hds]]]]]]]]].
  simpl. rewrite Hr, Hu, Hn. cbn [andb].
  rewrite (take_decimals_app _ _ Hds).
  destruct ds as [|d ds]; [congruence|]. reflexivity.
Qed.

(** The search returns the match at the first position that has one. *)
Lemma search_run_some (s m : list C) :
  search_run s = Some m ->
  exists pre post,
    s = pre ++ m ++ post /\ match_run (m ++ post) = Some m /\
    forall pre1 rest, pre = pre1 ++ rest -> rest <> [] ->
                      match_run (rest ++ m ++ post) = None.
Proof.
  induction s as [|c s IH]; intros H.
  - discriminate.
  - cbn [search_run] in H. destruct (match_run (c :: s)) as [m'|] eqn:E.
    + injection H as ->. destruct (match_run_some _ _ E) as [post [Hs _]].
      exists [], post. split; [exact Hs|]. split; [now rewrite <- Hs|].
      intros pre1 rest Hp Hne. symmetry in Hp. apply app_eq_nil in Hp.
      destruct Hp. contradiction.
    + destruct (IH H) as [pre [post [Hs [Hm Hleft]]]].
      exists (c :: pre), post. split; [simpl; now rewrite Hs|].
      split; [exact Hm|]. intros pre1 rest Hp Hne.
      destruct pre1 as [|c1 pre1].
      * simpl in Hp. subst rest. simpl. rewrite <- Hs. exact E.
      * injection Hp as _ Hp. now apply (Hleft pre1 rest).
Qed.

Lemma search_run_none (s : list C) :
  search_run s = None -> forall pre rest, s = pre ++ rest -> match_run rest = None.
Proof.
  induction s as [|c s IH]; intros H pre rest Hs.
  - symmetry in Hs. apply app_eq_nil in Hs. destruct Hs as [_ ->]. reflexivity.
  - cbn [search_run] in H. destruct (match_run (c :: s)) eqn:E; [discriminate|].
    destruct pre as [|c1 pre].
    + simpl in Hs. now subst rest.
    + injection Hs as _ Hs. now apply (IH H pre rest).
Qed.

Lemma search_run_contains (s : list C) :
  contains_run s <-> exists m, search_run s = Some m.
Proof.
  split.
  - intros [pre [t [post [Hs Ht]]]].
    destruct (search_run s) as [m|] eqn:E; [eauto|]. exfalso.
    pose proof (search_run_none s E pre (t ++ post) Hs) as Hn.
    rewrite (match_run_token t post Ht) in Hn. discriminate.
  - intros [m H]. destruct (search_run_some s m H) as [pre [post [Hs [Hm _]]]].
    destruct (match_run_some _ _ Hm) as [_ [_ [Ht _]]].
    exists pre, m, post. split; [exact Hs | exact Ht].
Qed.

(** The token that the search returns is the leftmost one, and the
    longest one at its place. *)
Lemma search_run_leftmost (s m : list C) :
  search_run s = Some m ->
  exists pre post,
    s = pre ++ m ++ post /\ is_run_token m /\
    forall pre' t' post',
      s = pre' ++ t' ++ post' -> is_run_token t' ->
      (length pre <= length pre')%nat /\
      (length pre' = length pre -> (length t' <= length m)%nat).
Proof.
  intros Hm.
  destruct (search_run_some _ _ Hm) as [pre [post [Hs [Hmatch Hleft]]]].
  destruct (match_run_some _ _ Hmatch) as [post0 [Hpost0 [Htok Hmax]]].
  exists pre, post. split; [exact Hs|]. split; [exact Htok|].
  intros pre' t' post' Hs' Ht'.
  assert (Hle : (length pre <= length pre')%nat).
  { destruct (le_lt_dec (length pre) (length pre')) as [Hle | Hlt];
      [exact Hle | exfalso].
    rewrite Hs in Hs'. apply app_eq_app in Hs'.
    destruct Hs' as [l [[Hp Hr] | [Hp Hr]]].
    - assert (l <> []) as Hl.
      { intros ->. rewrite app_nil_r in Hp. subst. lia. }
      pose proof (Hleft pre' l Hp Hl) as Hnone. rewrite <- Hr in Hnone.
      rewrite (match_run_token t' post' Ht') in Hnone. discriminate.
    - subst pre'. rewrite length_app in Hlt. lia. }
  split; [exact Hle|]. intros Hlen.
  rewrite Hs in Hs'. apply app_eq_app in Hs'.
  assert (Heq : m ++ post = t' ++ post').
  { destruct Hs' as [l [[Hp Hr] | [Hp Hr]]].
    - assert (l = []) as ->.
      { subst pre. rewrite length_app in Hlen.
        destruct l; [reflexivity | simpl in Hlen; lia]. }
      simpl in Hr. now rewrite Hr.
    - assert (l = []) as ->.
      { subst pre'. rewrite length_app in Hlen.
        destruct l; [reflexivity | simpl in Hlen; lia]. }
      simpl in Hr. exact Hr. }
  rewrite Heq, (match_run_token t' post' Ht') in Hmatch.
  injection Hmatch as <-. rewrite length_app. lia.
Qed.

(** ** Extensions *)

Lemma rfind_from_absent (c : C) (s : list C) (i last : Z) :
  c ∉ s -> rfind_from c s i last = last.
Proof.
  revert i last. induction s as [|d s IH]; intros i last H; simpl; [reflexivity|].
  apply not_elem_of_cons in H. destruct H as [Hd Hs].
  rewrite (IH _ _ Hs). destruct (char_eq_dec d c); congruence.
Qed.

Lemma rfind_from_last (c : C) (s1 s2 : list C) (i last : Z) :
  c ∉ s2 -> rfind_from c (s1 ++ c :: s2) i last = i + Z.of_nat (length s1).
Proof.
  intros H. revert i last. induction s1 as [|d s1 IH]; intros i last; simpl.
  - rewrite (rfind_from_absent _ _ _ _ H).
    destruct (char_eq_dec c c); [lia | congruence].
  - rewrite IH. lia.
Qed.

Lemma rfind_from_spec (c : C) (s : list C) (i last : Z) :
  ((c ∉ s) /\ rfind_from c s i last = last)
  \/ exists s1 s2, s = s1 ++ c :: s2 /\ (c ∉ s2) /\
                   rfind_from c s i last = i + Z.of_nat (length s1).
Proof.
  destruct (decide (c ∈ s)) as [Hin | Hout].
  - right. revert i last. induction s as [|d s IH]; intros i last.
    + inversion Hin.
    + destruct (decide (c ∈ s)) as [Hs | Hs].
      * destruct (IH Hs (i + 1) (if char_eq_dec d c then i else last))
          as [s1 [s2 [-> [H2 H3]]]].
        exists (d :: s1), s2. split; [reflexivity|]. split; [exact H2|].
        cbn [rfind_from length]. rewrite H3. lia.
      * apply elem_of_cons in Hin. destruct Hin as [-> | Hin]; [|contradiction].
        exists [], s. split; [reflexivity|]. split; [exact Hs|].
        apply (rfind_from_last d [] s i last Hs).
  - left. split; [exact Hout | now apply rfind_from_absent].
Qed.

Lemma replace_char_absent (a b : C) (s : list C) :
  a <> b -> a ∉ replace_char a b s.
Proof.
  intros Hab. induction s as [|c s IH]; simpl.
  - apply not_elem_of_nil.
  - apply not_elem_of_cons. split; [|exact IH].
    destruct (char_eq_dec c a); congruence.
Qed.

Lemma chr_neq (a b : ascii) : a <> b -> chr a <> chr b.
Proof. intros Hab H. apply chr_inj in H. contradiction. Qed.

Lemma existsb_elem {A} (f : A -> bool) (l : list A) (x : A) :
  x ∈ l -> f x = true -> existsb f l = true.
Proof.
  intros Hx Hf. apply existsb_exists. exists x.
  split; [now apply list_elem_of_In | exact Hf].
Qed.

(** [basename] is what follows the last slash. *)
Lemma basename_last (dir name : list C) :
  chr "/" ∉ name -> basename (dir ++ chr "/" :: name) = name.
Proof.
  intros H. unfold basename, rfind, slice_from.
  rewrite (rfind_from_last _ dir name 0 (-1) H).
  replace (Z.to_nat (0 + Z.of_nat (length dir) + 1)) with (S (length dir)) by lia.
  replace (dir ++ chr "/" :: name) with ((dir ++ [chr "/"]) ++ name)
    by now rewrite <- app_assoc.
  rewrite skipn_app, skipn_all2 by (rewrite length_app; simpl; lia).
  rewrite length_app. simpl length.
  replace (S (length dir) - (length dir + 1))%nat with 0%nat by lia.
  now rewrite skipn_O.
Qed.

Lemma basename_plain (name : list C) : chr "/" ∉ name -> basename name = name.
Proof.
  intros H. unfold basename, rfind, slice_from.
  rewrite (rfind_from_absent _ _ _ _ H).
  replace (Z.to_nat (-1 + 1)) with 0%nat by lia. apply skipn_O.
Qed.

Lemma basename_no_sep (p : list C) : chr "/" ∉ basename p.
Proof.
  destruct (rfind_from_spec (chr "/") p 0 (-1))
    as [[H _] | [s1 [s2 [-> [H _]]]]].
  - now rewrite basename_plain.
  - now rewrite basename_last.
Qed.

(** [splitext] cuts a name without directory part at its last dot, when
    something other than dots comes before it. *)
Lemma splitext_strips (root e : list C) :
  chr "/" ∉ root -> chr "/" ∉ e -> chr "." ∉ e ->
  (exists c, c ∈ root /\ c <> chr ".") ->
  splitext (root ++ chr "." :: e) = (root, chr "." :: e).
Proof.
  intros Hr He Hdot [c [Hc Hne]]. unfold splitext, rfind.
  rewrite (rfind_from_absent (chr "/")).
  2:{ rewrite not_elem_of_app, not_elem_of_cons.
      split; [exact Hr | split; [now apply chr_neq | exact He]]. }
  rewrite (rfind_from_last (chr ".") root e 0 (-1) Hdot).
  destruct (Z.ltb_spec (-1) (0 + Z.of_nat (length root))); [|lia].
  unfold has_non_dot, slice_from, slice_to.
  replace (Z.to_nat (0 + Z.of_nat (length root) - (-1 + 1))) with (length root) by lia.
  replace (Z.to_nat (-1 + 1)) with 0%nat by lia.
  replace (Z.to_nat (0 + Z.of_nat (length root))) with (length root) by lia.
  rewrite skipn_O, firstn_app, Nat.sub_diag, firstn_all, firstn_O, app_nil_r.
  rewrite (existsb_elem _ root c Hc).
  2:{ destruct (char_eq_dec c (chr ".")); [contradiction | reflexivity]. }
  simpl. f_equal. rewrite skipn_app, Nat.sub_diag, skipn_all. reflexivity.
Qed.

(** A name that is dots up to its last dot has no extension. *)
Lemma splitext_leading_dots (dots e : list C) :
  Forall (fun c => c = chr ".") dots -> chr "." ∉ e -> chr "/" ∉ e ->
  splitext (dots ++ e) = (dots ++ e, []).
Proof.
  intros Hd He Hs. unfold splitext, rfind.
  rewrite (rfind_from_absent (chr "/")).
  2:{ rewrite not_elem_of_app. split; [|exact Hs].
      intros Hin. rewrite Forall_forall in Hd. apply Hd in Hin.
      now apply chr_neq in Hin. }
  destruct dots as [|d dots _] using rev_ind.
  - cbn [app]. rewrite (rfind_from_absent _ _ _ _ He). reflexivity.
  - apply Forall_app in Hd. destruct Hd as [Hd Hlast].
    apply Forall_inv in Hlast. subst d.
    rewrite <- app_assoc. cbn [app].
    rewrite (rfind_from_last (chr ".") dots e 0 (-1) He).
    destruct (Z.ltb_spec (-1) (0 + Z.of_nat (length dots))); [|lia].
    unfold has_non_dot, slice_from.
    replace (Z.to_nat (0 + Z.of_nat (length dots) - (-1 + 1)))
      with (length dots) by lia.
    replace (Z.to_nat (-1 + 1)) with 0%nat by lia.
    rewrite skipn_O, firstn_app, Nat.sub_diag, firstn_all, firstn_O, app_nil_r.
    assert (Hnone : existsb (fun c => if char_eq_dec c (chr ".") then false
                                      else true) dots = false).
    { clear -Hd. induction Hd as [|c dots Hc _ IH]; [reflexivity|].
      cbn [existsb]. rewrite IH.
      destruct (char_eq_dec c (chr ".")); [reflexivity | contradiction]. }
    rewrite Hnone. reflexivity.
Qed.

Lemma splitext_root_sub (p : list C) (c : C) :
  c ∈ fst (splitext p) -> c ∈ p.
Proof.
  unfold splitext.
  destruct ((rfind (chr "/") p <? rfind (chr ".") p)
            && has_non_dot p (rfind (chr "/") p + 1) (rfind (chr ".") p));
    cbn [fst].
  - unfold slice_to. intros H.
    rewrite <- (firstn_skipn (Z.to_nat (rfind (chr ".") p)) p).
    apply elem_of_app. now left.
  - auto.
Qed.

(** The base name of an archive is its file name, without the folders
    and without the final extension. *)
Lemma mdat_base_name (name ext : list C) :
  chr "/" ∉ name -> chr "/" ∉ ext -> chr "." ∉ ext ->
  (exists c, c ∈ name /\ c <> chr ".") ->
  mdat_base (name ++ chr "." :: ext) = name
  /\ forall dir, mdat_base (dir ++ chr "/" :: name ++ chr "." :: ext) = name.
Proof.
  intros Hn He Hdot Hc.
  assert (Hfile : chr "/" ∉ name ++ chr "." :: ext).
  { rewrite not_elem_of_app, not_elem_of_cons.
    split; [exact Hn | split; [now apply chr_neq | exact He]]. }
  unfold mdat_base. split.
  - rewrite (basename_plain _ Hfile). now rewrite splitext_strips.
  - intros dir. rewrite (basename_last _ _ Hfile). now rewrite splitext_strips.
Qed.

End Names.

(** C9: the output base name of a member, for names over any characters
    (8-bit or Unicode).  When the member path holds a run token ([Run] in
    any case, then decimal digits), the base name is the archive base
    name, a hyphen and the run token that the search matches: the
    leftmost one, with all its digits.  Otherwise it is the path with
    every slash replaced by an underscore, cut at its final extension:
    at its last dot, when something other than dots comes before it; a
    name that is dots up to its last dot is kept whole.
    The archive base name is the file name of the archive path, without
    its folders and without its final extension.  On 8-bit names a run
    token is the letters of [Run] in any case and ASCII digits.
    [Run01/ac.z] in [./Input_Data_MDAT/sample.mdat] gives [sample-Run01],
    and [data/ac.z] gives [data_ac]. *)
Theorem C9_output_base_name {C : Type} {char : Char C}
    (file_path sub_file_name : list C) :
  let archive_base := mdat_base file_path in
  let base := output_base_name archive_base sub_file_name in
  (contains_run sub_file_name ->
   exists pre t post,
     sub_file_name = pre ++ t ++ post /\ is_run_token t /\
     (forall pre' t' post',
         sub_file_name = pre' ++ t' ++ post' -> is_run_token t' ->
         (length pre <= length pre')%nat /\
         (length pre' = length pre -> (length t' <= length t)%nat)) /\
     base = archive_base ++ [chr "-"] ++ t)
  /\ (~ contains_run sub_file_name ->
      base = fst (splitext (replace_char (chr "/") (chr "_") sub_file_name)) /\
      forall root e,
        replace_char (chr "/") (chr "_") sub_file_name = root ++ chr "." :: e ->
        chr "." ∉ e -> (exists c, c ∈ root /\ c <> chr ".") ->
        base = root)
  /\ (~ contains_run sub_file_name ->
      forall dots e,
        replace_char (chr "/") (chr "_") sub_file_name = dots ++ e ->
        Forall (fun c => c = chr ".") dots -> chr "." ∉ e ->
        base = dots ++ e)
  /\ (forall name ext : list C,
        chr "/" ∉ name -> chr "/" ∉ ext -> chr "." ∉ ext ->
        (exists c, c ∈ name /\ c <> chr ".") ->
        mdat_base (name ++ chr "." :: ext) = name
        /\ forall dir, mdat_base (dir ++ chr "/" :: name ++ chr "." :: ext) = name)
  /\ (forall t : str, is_run_token t <-> is_run_token_8bit t)
  /\ mdat_base (lit "./Input_Data_MDAT/sample.mdat") = lit "sample"
  /\ output_base_name (mdat_base (lit "./Input_Data_MDAT/sample.mdat"))
                      (lit "Run01/ac.z")
     = lit "sample-Run01"
  /\ output_base_name (mdat_base (lit "sample.mdat")) (lit "Run01/ac.z")
     = lit "sample-Run01"
  /\ output_base_name (mdat_base (lit "sample.mdat")) (lit "data/ac.z")
     = lit "data_ac"
  /\ output_base_name (mdat_base (lit "sample.mdat")) (lit "a/run7/RUN12.z")
     = lit "sample-run7"
  /\ output_base_name (mdat_base (lit "sample.mdat")) (lit "data/.z")
     = lit "data_"
  /\ output_base_name (mdat_base (lit "sample.mdat")) (lit ".z") = lit ".z".
Proof.
  intros archive_base base.
  assert (Hnone : ~ contains_run sub_file_name ->
                  search_run sub_file_name = None).
  { intros Hno. destruct (search_run sub_file_name) as [m|] eqn:E;
      [|reflexivity].
    exfalso. apply Hno, search_run_contains. eauto. }
  assert (Habs : forall l1 l2,
            replace_char (chr "/") (chr "_") sub_file_name = l1 ++ l2 ->
            chr "/" ∉ l2).
  { intros l1 l2 Hrep.
    pose proof (replace_char_absent (chr "/") (chr "_") sub_file_name) as H.
    rewrite Hrep, not_elem_of_app in H. apply H. now apply chr_neq. }
  split; [|split; [|split; [|split; [|split; [|repeat split]]]]].
  - intros Hrun. apply search_run_contains in Hrun. destruct Hrun as [m Hm].
    destruct (search_run_leftmost _ _ Hm) as [pre [post [Hs [Htok Hleft]]]].
    exists pre, m, post. split; [exact Hs|]. split; [exact Htok|].
    split; [exact Hleft|].
    unfold base, output_base_name. rewrite Hm. reflexivity.
  - intros Hno. unfold base, output_base_name. rewrite (Hnone Hno).
    split; [reflexivity|].
    intros root e Hrep Hdot Hroot. cbv zeta. rewrite Hrep.
    pose proof (replace_char_absent (chr "/") (chr "_") sub_file_name) as Hall.
    rewrite Hrep, not_elem_of_app, not_elem_of_cons in Hall.
    destruct Hall as [Hr [_ He]]; [now apply chr_neq|].
    now rewrite (splitext_strips root e Hr He Hdot Hroot).
  - intros Hno dots e Hrep Hdots Hdot.
    unfold base, output_base_name. rewrite (Hnone Hno). cbv zeta.
    rewrite Hrep, splitext_leading_dots;
      [reflexivity | exact Hdots | exact Hdot | exact (Habs _ _ Hrep)].
  - apply mdat_base_name.
  - apply is_run_token_8bit_spec.
Qed.

(** A member name with a decimal digit beyond ASCII: with the code
    points of Unicode for characters, the name [RuN] and the
    Arabic-Indic digit three (code point 1635) is a run token, whatever
    else the tables of Unicode hold. *)
Lemma output_base_name_unicode (decimal : N -> bool) (nocase : ascii -> N -> bool) :
  nocase "R"%char 82%N = true -> nocase "u"%char 117%N = true ->
  nocase "n"%char 78%N = true -> decimal 1635%N = true ->
  decimal 46%N = false ->
  @output_base_name N (unicode_char decimal nocase)
    (map N_of_ascii (lit "sample")) [82; 117; 78; 1635; 46; 122]%N
  = map N_of_ascii (lit "sample-") ++ [82; 117; 78; 1635]%N.
Proof.
  intros HR Hu Hn Hd Hdot. unfold output_base_name.
  cbn [search_run match_run match_nocase unicode_char isdecimal take_decimals].
  rewrite HR, Hu, Hn. cbn [andb]. rewrite Hd, Hdot. reflexivity.
Qed.

(** ** Step 6: the extracted columns *)

Lemma extract_columns_spec (df : DataFrame) :
  extract_columns df =
  ({| series := map (fun item => (snd item, to_numeric (getitem df (fst item))))
                    (present_targets df);
      nrows := match present_targets df with
               | [] => None
               | item :: _ => Some (length (to_numeric (getitem df (fst item))))
               end |},
   absent_targets df).
Proof.
  unfold extract_columns, present_targets, absent_targets, TARGET_COLUMNS_MAP.
  cbn [fold_left List.filter fst snd]. unfold extract_step.
  destruct (has_column df (lit "Freq(Hz)")),
           (has_column df (lit "Z'(a)")),
           (has_column df (lit "Z''(b)")); reflexivity.
Qed.

(** ** Steps 7 and 8: the run of [extract_and_save] *)

Lemma extract_and_save_run (float_repr : Q -> str) (df : DataFrame)
    (base out : str) (w : world) :
  extract_and_save float_repr df base out w =
  let t := extracted_table df in
  let w1 := say w (warnings df) in
  if empty t then (inr tt, say w1 [SkipNoNumericData])
  else
    match deny w !! csv_path out base with
    | Some e => (inl e, w1)
    | None =>
      let w2 := {| files := <[csv_path out base := csv_text float_repr "," t]>
                              (files w);
                   deny := deny w; console := console w1 |} in
      match deny w !! txt_path out base with
      | Some e => (inl e, w2)
      | None =>
        (inr tt,
         {| files := <[txt_path out base := csv_text float_repr TAB t]>
                       (files w2);
            deny := deny w;
            console := console w1
                       ++ [MsgSuccess (length (rows t))
                                      (basename (csv_path out base))] |})
      end
    end.
Proof.
  unfold extract_and_save, extracted_table, warnings.
  rewrite extract_columns_spec. cbn [fst].
  set (f := {| series := _; nrows := _ |}).
  destruct w as [fs dn cs].
  destruct (absent_targets df) as [|m ms].
  - unfold bind, ret, to_csv, write_file, print, say.
    cbv beta iota delta [deny files console]. rewrite app_nil_r.
    destruct (empty (dropna f)); [reflexivity|].
    destruct (dn !! csv_path out base); [reflexivity|].
    cbv beta iota delta [deny files console].
    destruct (dn !! txt_path out base); reflexivity.
  - unfold bind, to_csv, write_file, print, say.
    cbv beta iota delta [deny files console].
    destruct (empty (dropna f)); [now rewrite <- app_assoc|].
    destruct (dn !! csv_path out base); [reflexivity|].
    cbv beta iota delta [deny files console].
    destruct (dn !! txt_path out base); reflexivity.
Qed.

(** Every exception of the body is caught. *)
Lemma parse_handler_total (base out : str) (e : exn) :
  exists d, parse_handler base out e = Some (print d).
Proof. destruct e; simpl; eauto. Qed.

Lemma parse_ascii_content_returns (float_repr : Q -> str)
    (file_content base out : str) (w : world) :
  fst (parse_ascii_content float_repr file_content base out w) = inr tt.
Proof.
  unfold parse_ascii_content, try_except.
  destruct (parse_body float_repr file_content base out w) as [[e | []] w'].
  - destruct (parse_handler_total base out e) as [d ->]. reflexivity.
  - reflexivity.
Qed.

(** ** The run of [parse_ascii_content] once the header is located *)

Lemma parse_located (float_repr : Q -> str) (file_content base out : str)
    (w : world) (names : list str) (data : str) (df : DataFrame) :
  scan_header file_content = Located names data ->
  read_csv names data = inr df ->
  parse_ascii_content float_repr file_content base out w =
  try_except (extract_and_save float_repr df base out)
             (parse_handler base out) w.
Proof.
  intros Hscan Hread. unfold parse_ascii_content, parse_body, try_except.
  rewrite Hscan, Hread. unfold bind, lift, ret.
  destruct (extract_and_save float_repr df base out w) as [[e | u] w'];
    reflexivity.
Qed.

Lemma parse_read_error (float_repr : Q -> str) (file_content base out : str)
    (w : world) (names : list str) (data : str) (e : exn) :
  scan_header file_content = Located names data ->
  read_csv names data = inl e ->
  parse_ascii_content float_repr file_content base out w =
  match parse_handler base out e with
  | Some h => h w
  | None => (inl e, w)
  end.
Proof.
  intros Hscan Hread. unfold parse_ascii_content, parse_body, try_except.
  rewrite Hscan, Hread. reflexivity.
Qed.

(** C7, as the code has it: when the header line names a column twice,
    [read_csv] rejects the names, so no parsed table results; the parser
    catches the error, reports the member as failed, writes no file and
    returns. *)
Theorem C7_duplicate_names_rejected (float_repr : Q -> str)
    (file_content base out : str) (w : world)
    (column_names : list str) (data : str) :
  scan_header file_content = Located column_names data ->
  ~ NoDup column_names ->
  read_csv column_names data = inl ValueError
  /\ parse_ascii_content float_repr file_content base out w
     = (inr tt, say w [FailParse ValueError])
  /\ table_of file_content = None.
Proof.
  intros Hscan Hdup. apply has_dup_spec in Hdup.
  assert (Hread : read_csv column_names data = inl ValueError).
  { unfold read_csv. now rewrite Hdup. }
  split; [exact Hread|]. split.
  - rewrite (parse_read_error _ _ _ _ _ _ _ _ Hscan Hread). reflexivity.
  - unfold table_of. now rewrite Hscan, Hread.
Qed.

Lemma sample_duplicate_scan :
  scan_header sample_duplicate =
  Located [lit "Freq(Hz)"; lit "Z'(a)"; lit "Z''(b)"; lit "Z''(b)"]
          (lit "100  50.0  -20.0  -30.0" ++ [LF]).
Proof. vm_compute. reflexivity. Qed.

Lemma sample_duplicate_names :
  ~ NoDup [lit "Freq(Hz)"; lit "Z'(a)"; lit "Z''(b)"; lit "Z''(b)"].
Proof. apply has_dup_spec. vm_compute. reflexivity. Qed.

Lemma C7_witness :
  read_csv [lit "Freq(Hz)"; lit "Z'(a)"; lit "Z''(b)"; lit "Z''(b)"]
           (lit "100  50.0  -20.0  -30.0" ++ [LF]) = inl ValueError
  /\ parse_ascii_content exact_repr sample_duplicate (lit "sample-Run01")
       OUTPUT_FOLDER fresh
     = (inr tt, say fresh [FailParse ValueError])
  /\ table_of sample_duplicate = None.
Proof.
  exact (C7_duplicate_names_rejected exact_repr sample_duplicate
           (lit "sample-Run01") OUTPUT_FOLDER fresh _ _
           sample_duplicate_scan sample_duplicate_names).
Defined.

(** The claim of C7 as the specification words it fails on a header that
    names [Z''(b)] twice: no parsed table results, the member fails. *)
Lemma C7_counterexample :
  exists column_names data,
    scan_header sample_duplicate = Located column_names data
    /\ ~ NoDup column_names
    /\ (forall df, read_csv column_names data <> inr df)
    /\ snd (parse_ascii_content exact_repr sample_duplicate
              (lit "sample-Run01") OUTPUT_FOLDER fresh)
       = say fresh [FailParse ValueError].
Proof.
  exists [lit "Freq(Hz)"; lit "Z'(a)"; lit "Z''(b)"; lit "Z''(b)"],
         (lit "100  50.0  -20.0  -30.0" ++ [LF]).
  split; [exact sample_duplicate_scan|].
  split; [exact sample_duplicate_names|].
  split; [intros df; vm_compute; discriminate | vm_compute; reflexivity].
Qed.

(** ** Step 7: rows without a missing value *)

Lemma forallb_notna (row : list value) :
  forallb notna row = true <-> forall v, v ∈ row -> isna v = false.
Proof.
  rewrite forallb_forall. split.
  - intros H v Hv. apply list_elem_of_In in Hv. apply H in Hv.
    unfold notna in Hv. now apply negb_true_iff in Hv.
  - intros H v Hv. apply list_elem_of_In in Hv. unfold notna.
    apply negb_true_iff. now apply H.
Qed.

Lemma dropna_rows (f : Frame) (row : list value) :
  row ∈ rows (dropna f) <->
  row ∈ frame_rows f /\ forall v, v ∈ row -> isna v = false.
Proof.
  unfold dropna. cbn [rows]. rewrite list_elem_of_In, filter_In.
  now rewrite forallb_notna, list_elem_of_In.
Qed.

Lemma frame_rows_length (f : Frame) (row : list value) :
  row ∈ frame_rows f -> length row = length (series f).
Proof.
  unfold frame_rows. rewrite list_elem_of_In, in_map_iff.
  intros [i [<- _]]. unfold row_at. apply length_map.
Qed.

Lemma lookup_insert_cases (fs : gmap str str) (p p' c c' : str) :
  <[p := c]> fs !! p' = Some c' -> c' = c \/ fs !! p' = Some c'.
Proof.
  destruct (decide (p = p')) as [-> | Hne].
  - rewrite lookup_insert_eq. intros H. injection H as <-. now left.
  - rewrite lookup_insert_ne by exact Hne. now right.
Qed.

(** What the run of steps 6 to 8 leaves in any file is what was there
    before, or the text of the extracted table. *)
Lemma extract_and_save_files (float_repr : Q -> str) (df : DataFrame)
    (base out : str) (w : world) (p c : str) :
  files (snd (extract_and_save float_repr df base out w)) !! p = Some c ->
  files w !! p = Some c
  \/ c = csv_text float_repr "," (extracted_table df)
  \/ c = csv_text float_repr TAB (extracted_table df).
Proof.
  rewrite extract_and_save_run. cbv zeta.
  destruct (empty (extracted_table df)); [cbn; auto|].
  destruct (deny w !! csv_path out base); [cbn; auto|].
  destruct (deny w !! txt_path out base); cbn [snd files say].
  - intros H. apply lookup_insert_cases in H. tauto.
  - intros H. apply lookup_insert_cases in H. destruct H as [H | H]; [tauto|].
    apply lookup_insert_cases in H. tauto.
Qed.

(** ** Numbers and their sign *)

Lemma digit_val_nonneg (c : ascii) : isdigit c = true -> 0 <= digit_val c.
Proof.
  unfold isdigit, digit_val. intros H. apply andb_true_iff in H.
  destruct H as [H _]. apply N.leb_le in H. lia.
Qed.

Lemma digits_val_from_nonneg (ds : str) (acc : Z) :
  Forall (fun c => isdigit c = true) ds -> 0 <= acc ->
  0 <= fold_left (fun a c => 10 * a + digit_val c) ds acc.
Proof.
  intros H. revert acc. induction H as [|c ds Hc _ IH]; intros acc Hacc; simpl.
  - exact Hacc.
  - apply IH. pose proof (digit_val_nonneg c Hc). lia.
Qed.

Lemma digits_val_nonneg (ds : str) :
  Forall (fun c => isdigit c = true) ds -> 0 <= digits_val ds.
Proof. intros H. apply digits_val_from_nonneg; [exact H | lia]. Qed.

Lemma scale10_nonneg (m e : Z) : 0 <= m -> (0 <= scale10 m e)%Q.
Proof.
  intros Hm. unfold scale10, Qle. destruct (0 <=? e) eqn:E; cbn [Qnum Qden].
  - apply Z.leb_le in E. pose proof (Z.pow_nonneg 10 e). nia.
  - lia.
Qed.

Lemma scale10_nonpos (m e : Z) : m <= 0 -> (scale10 m e <= 0)%Q.
Proof.
  intros Hm. unfold scale10, Qle. destruct (0 <=? e) eqn:E; cbn [Qnum Qden].
  - apply Z.leb_le in E. pose proof (Z.pow_nonneg 10 e). nia.
  - lia.
Qed.

(** The mantissa digits of a literal are digits. *)
Lemma fraction_digits (s2 : str) :
  Forall (fun c => isdigit c = true)
    (fst match s2 with
         | c :: r => if Ascii.eqb c "." then (take_digits r, drop_digits r)
                     else ([], s2)
         | [] => ([], s2)
         end).
Proof.
  destruct s2 as [|c r]; [constructor|].
  destruct (Ascii.eqb c "."); [apply take_digits_all | constructor].
Qed.

Lemma parse_decimal_signed (s : str) (q : Q) :
  parse_decimal s = Some q ->
  exists m e, 0 <= m /\ q = scale10 (signed (fst (split_sign s)) m) e.
Proof.
  unfold parse_decimal. destruct (split_sign s) as [negative s1]. cbn [fst].
  pose proof (fraction_digits (drop_digits s1)) as Hfp.
  destruct (match drop_digits s1 with
            | c :: r => if Ascii.eqb c "." then (take_digits r, drop_digits r)
                        else ([], drop_digits s1)
            | [] => ([], drop_digits s1)
            end) as [fp s3].
  cbn [fst] in Hfp.
  assert (Hds : Forall (fun c => isdigit c = true) (take_digits s1 ++ fp)).
  { apply Forall_app. split; [apply take_digits_all | exact Hfp]. }
  destruct (take_digits s1 ++ fp) as [|d ds] eqn:E; [discriminate|].
  destruct (exponent s3) as [e|]; [|discriminate].
  intros H. injection H as <-.
  exists (digits_val (d :: ds)), (e - Z.of_nat (length fp)).
  split; [now apply digits_val_nonneg | reflexivity].
Qed.

(** The sign of a number is the sign written in its token. *)
Lemma parse_decimal_sign (s : str) (q : Q) :
  parse_decimal s = Some q ->
  if startswith (lit "-") s then (q <= 0)%Q else (0 <= q)%Q.
Proof.
  intros H. destruct (parse_decimal_signed s q H) as [m [e [Hm ->]]].
  destruct s as [|c r]; cbn [split_sign startswith lit list_ascii_of_string].
  - now apply scale10_nonneg.
  - destruct (Ascii.eqb_spec c "-") as [-> | Hne].
    + cbn. apply scale10_nonpos. lia.
    + rewrite andb_true_r.
      destruct (Ascii.eqb_spec "-" c) as [<- | _]; [congruence|].
      destruct (Ascii.eqb c "+"); cbn; now apply scale10_nonneg.
Qed.

(** A number is neither a word for a boolean nor a word for a missing
    value. *)
Lemma parse_bool_not_float (s : str) (b : bool) :
  parse_bool s = Some b -> parse_float s = None /\ s ∉ STR_NA_VALUES.
Proof.
  unfold parse_bool.
  destruct (decide (s ∈ [lit "True"; lit "TRUE"; lit "true"])) as [Hin | _].
  - intros _. rewrite !elem_of_cons in Hin.
    destruct Hin as [-> | [-> | [-> | Hin]]]; [| | | inversion Hin];
      (split; [vm_compute; reflexivity |]);
      apply (bool_decide_eq_false_1 _); vm_compute; reflexivity.
  - destruct (decide (s ∈ [lit "False"; lit "FALSE"; lit "false"])) as [Hin | _];
      [|discriminate].
    intros _. rewrite !elem_of_cons in Hin.
    destruct Hin as [-> | [-> | [-> | Hin]]]; [| | | inversion Hin];
      (split; [vm_compute; reflexivity |]);
      apply (bool_decide_eq_false_1 _); vm_compute; reflexivity.
Qed.

Lemma na_word_not_float (s : str) : s ∈ STR_NA_VALUES -> parse_float s = None.
Proof.
  unfold STR_NA_VALUES. cbn [map app]. rewrite !elem_of_cons.
  intros H. repeat (destruct H as [-> | H]; [vm_compute; reflexivity|]).
  inversion H.
Qed.

Lemma parse_float_cell (t : str) (v : value) :
  parse_float t = Some v ->
  is_bool_cell (Some t) = false /\ is_na_cell (Some t) = false.
Proof.
  intros H. split.
  - cbn. destruct (parse_bool t) as [b|] eqn:E; [|reflexivity].
    apply parse_bool_not_float in E. destruct E as [E _]. congruence.
  - cbn. apply bool_decide_eq_false_2. intros Hin.
    apply na_word_not_float in Hin. congruence.
Qed.

(** A number is not missing. *)
Lemma parse_float_notna (t : str) (v : value) :
  parse_float t = Some v -> isna v = false.
Proof.
  unfold parse_float, to_double.
  destruct (parse_decimal t) as [q|].
  - intros H. injection H as <-. now destruct (overflows q).
  - destruct (parse_inf t); [|discriminate]. intros H. now injection H as <-.
Qed.

Lemma to_numeric_length (col : list (option str)) :
  length (to_numeric col) = length col.
Proof.
  unfold to_numeric. destruct (bool_column col); [|apply length_map].
  destruct (forallb is_bool_cell col); apply length_map.
Qed.

Lemma bool_column_cell (col : list (option str)) (r : nat) (c : option str) :
  bool_column col = true -> col !! r = Some c ->
  is_bool_cell c || is_na_cell c = true.
Proof.
  unfold bool_column. intros H Hr. apply andb_true_iff in H. destruct H as [_ H].
  rewrite forallb_forall in H. apply H, list_elem_of_In.
  eapply list_elem_of_lookup_2. exact Hr.
Qed.

(** The converted cell of a token that is a number is the number stored
    for the token. *)
Lemma to_numeric_number (col : list (option str)) (r : nat) (t : str) (v : value) :
  col !! r = Some (Some t) -> parse_float t = Some v ->
  to_numeric col !! r = Some v.
Proof.
  intros Hr Hv. unfold to_numeric.
  destruct (parse_float_cell t v Hv) as [Hb Hna].
  destruct (bool_column col) eqn:E.
  - pose proof (bool_column_cell col r _ E Hr) as H.
    rewrite Hb, Hna in H. discriminate.
  - rewrite list_lookup_fmap, Hr. cbn. now rewrite Hv.
Qed.

(** Which cells are missing after the conversion of a column. *)
Lemma to_numeric_missing (col : list (option str)) (r : nat) (c : option str) :
  col !! r = Some c ->
  exists v, to_numeric col !! r = Some v /\
    (isna v = true <->
     if bool_column col then is_na_cell c = true
     else c = None \/ exists t, c = Some t /\ parse_float t = None).
Proof.
  intros Hr. unfold to_numeric. destruct (bool_column col) eqn:E.
  - pose proof (bool_column_cell col r c E Hr) as Hc.
    assert (Hcell : forall f, (f = bool_cell \/ f = bool_float_cell) ->
              (isna (f c) = true <-> is_bool_cell c = false)
              /\ (is_bool_cell c = true -> is_na_cell c = false)).
    { intros f Hf. destruct c as [t|]; cbn.
      - destruct (parse_bool t) as [b|] eqn:Eb.
        + split.
          * destruct Hf as [-> | ->]; cbn; rewrite Eb; cbn; split; discriminate.
          * intros _. apply bool_decide_eq_false_2.
            now apply (parse_bool_not_float t b).
        + split; [|discriminate].
          destruct Hf as [-> | ->]; cbn; rewrite Eb; tauto.
      - split; [|discriminate]. destruct Hf as [-> | ->]; cbn; tauto. }
    destruct (forallb is_bool_cell col).
    + exists (bool_cell c). rewrite list_lookup_fmap, Hr.
      split; [reflexivity|]. destruct (Hcell bool_cell) as [H1 H2]; [now left|].
      rewrite H1. destruct (is_bool_cell c); cbn in Hc.
      * rewrite H2 by reflexivity. split; discriminate.
      * rewrite Hc. tauto.
    + exists (bool_float_cell c). rewrite list_lookup_fmap, Hr.
      split; [reflexivity|].
      destruct (Hcell bool_float_cell) as [H1 H2]; [now right|].
      rewrite H1. destruct (is_bool_cell c); cbn in Hc.
      * rewrite H2 by reflexivity. split; discriminate.
      * rewrite Hc. tauto.
  - exists (numeric_cell c). rewrite list_lookup_fmap, Hr. split; [reflexivity|].
    destruct c as [t|]; cbn.
    + destruct (parse_float t) as [v|] eqn:Ev.
      * rewrite (parse_float_notna t v Ev). split; [discriminate|].
        intros [H | [t' [H1 H2]]]; [discriminate|]. congruence.
      * split; [|reflexivity]. intros _. right. eauto.
    + split; [|reflexivity]. intros _. now left.
Qed.

(** The sign of a stored number is the sign written in its token. *)
Lemma parse_float_sign (t : str) (v : value) :
  parse_float t = Some v -> sign_agrees t v.
Proof.
  unfold parse_float. destruct (parse_decimal t) as [q|] eqn:Eq.
  - intros H. injection H as <-. pose proof (parse_decimal_sign t q Eq) as Hs.
    unfold to_double, overflows, sign_agrees.
    destruct (Z.leb_spec (FLOAT_OVERFLOW * Z.pos (Qden q)) (Z.abs (Qnum q)))
      as [Hov | _]; [|exact Hs].
    assert (0 < FLOAT_OVERFLOW) by (vm_compute; reflexivity).
    unfold Qle in Hs. cbn [Qnum Qden] in Hs.
    destruct (startswith (lit "-") t); cbn [Qnum Qden] in Hs.
    + apply Z.ltb_lt. nia.
    + apply Z.ltb_ge. nia.
  - destruct (parse_inf t) as [negative|] eqn:Ei; [|discriminate].
    intros H. injection H as <-. unfold sign_agrees, parse_inf in *.
    destruct t as [|c r]; cbn [split_sign] in Ei.
    + vm_compute in Ei. discriminate.
    + cbn [startswith lit list_ascii_of_string]. rewrite andb_true_r.
      rewrite (Ascii.eqb_sym "-" c).
      destruct (Ascii.eqb c "-").
      * destruct (decide (lower r = lit "inf"));
          [|destruct (decide (lower r = lit "infinity"))]; congruence.
      * destruct (Ascii.eqb c "+");
          (destruct (decide (lower _ = lit "inf"));
           [|destruct (decide (lower _ = lit "infinity"))]); congruence.
Qed.

Lemma present_target (df : DataFrame) (original_name new_name : str) :
  (original_name, new_name) ∈ TARGET_COLUMNS_MAP ->
  has_column df original_name = true ->
  (new_name, to_numeric (getitem df original_name))
    ∈ series (fst (extract_columns df)).
Proof.
  intros Hin Hcol. rewrite extract_columns_spec. cbn [fst series].
  apply list_elem_of_In, in_map_iff. exists (original_name, new_name).
  split; [reflexivity|]. unfold present_targets.
  apply filter_In. split; [now apply list_elem_of_In | exact Hcol].
Qed.

(** C3, as the code has it: in every row of the extracted table, and so
    in every row written to the two files, the value of each present
    target column is not missing (not NaN), and a row of the converted
    columns stays exactly when none of its values is missing.  A cell is
    missing after conversion when its row lacks it or when its token is
    no number; in a column that has a word for true or false and
    otherwise only such words and missing cells, the words are kept (as
    booleans, or as 1.0 and 0.0) and a cell is missing when its row lacks
    it or it is a word for a missing value; next to any other token the
    words for true and false are no numbers, like that token.  A value
    that is not missing may be an infinity: the words [inf] and
    [infinity] and a decimal literal beyond the range of floats give
    one. *)
Theorem C3_rows_complete (float_repr : Q -> str) (df : DataFrame) :
  let frame := fst (extract_columns df) in
  let t := extracted_table df in
  header t = map snd (present_targets df)
  /\ (forall row, row ∈ rows t ->
        length row = length (header t) /\
        forall v, v ∈ row -> isna v = false)
  /\ (forall row, row ∈ frame_rows frame ->
        (row ∈ rows t <-> forall v, v ∈ row -> isna v = false))
  /\ (forall base out w p c,
        files (snd (extract_and_save float_repr df base out w)) !! p = Some c ->
        files w !! p = Some c
        \/ c = csv_text float_repr "," t \/ c = csv_text float_repr TAB t)
  /\ (forall original_name new_name r c,
        (original_name, new_name) ∈ TARGET_COLUMNS_MAP ->
        has_column df original_name = true ->
        getitem df original_name !! r = Some c ->
        exists col v,
          (new_name, col) ∈ series frame /\ col !! r = Some v /\
          (isna v = true <->
           if bool_column (getitem df original_name) then is_na_cell c = true
           else c = None \/ exists tok, c = Some tok /\ parse_float tok = None))
  /\ to_numeric [Some (lit "True"); Some (lit "NA"); None; Some (lit "false")]
     = [Num 1; NaN; NaN; Num 0]
  /\ to_numeric [Some (lit "True"); Some (lit "x")] = [NaN; NaN]
  /\ to_numeric [Some (lit "1"); Some (lit "True")] = [Num (1 # 1); NaN]
  /\ parse_float (lit "inf") = Some (Inf false)
  /\ parse_float (lit "-Infinity") = Some (Inf true)
  /\ parse_float (lit "1e400") = Some (Inf false).
Proof.
  intros frame t. split; [|split; [|split; [|split; [|repeat split]]]].
  - unfold t, extracted_table. rewrite extract_columns_spec. cbn [fst dropna header series].
    rewrite map_map. reflexivity.
  - intros row Hrow. unfold t, extracted_table in Hrow.
    apply dropna_rows in Hrow. destruct Hrow as [Hin Hna]. split; [|exact Hna].
    rewrite (frame_rows_length _ _ Hin). unfold t, extracted_table, dropna.
    cbn [header]. now rewrite length_map.
  - intros row Hrow. unfold t, extracted_table. rewrite dropna_rows. tauto.
  - intros base out w p c. apply extract_and_save_files.
  - intros original_name new_name r c Hin Hcol Hr.
    destruct (to_numeric_missing _ r c Hr) as [v [Hv Hna]].
    exists (to_numeric (getitem df original_name)), v.
    split; [now apply present_target | split; [exact Hv | exact Hna]].
Qed.

(** The claim of C3 as the specification words it fails on a member with
    the token [inf]: the row is written, with an infinite frequency.  It
    fails as well on a member with the words [True] and [False] in a
    target column: they are no numbers, and their rows are written. *)
Lemma C3_counterexample :
  (exists t row,
    table_of sample_inf = Some t /\ row ∈ rows t /\ Inf false ∈ row
    /\ files (snd (parse_ascii_content exact_repr sample_inf
                     (lit "sample-Run01") OUTPUT_FOLDER fresh))
       !! lit "./Output_Data/sample-Run01_extracted.csv"
       = Some (csv_text exact_repr "," t))
  /\ table_of sample_bool_words =
     Some {| header := [lit "frequency (Hz)"; lit "Z_real (Ohm)";
                        lit "Z_imag (Ohm)"];
             rows := [[Num (1 # 1); Num (2 # 1); Bool true];
                      [Num (3 # 1); Num (4 # 1); Bool false]] |}
  /\ table_of sample_bool_missing =
     Some {| header := [lit "frequency (Hz)"; lit "Z_real (Ohm)";
                        lit "Z_imag (Ohm)"];
             rows := [[Num (1 # 1); Num (2 # 1); Num 1]] |}.
Proof.
  split; [|split; vm_compute; reflexivity].
  exists {| header := [lit "frequency (Hz)"; lit "Z_real (Ohm)";
                       lit "Z_imag (Ohm)"];
            rows := [[Inf false; Num (500 # 10); Num (-200 # 10)]] |},
         [Inf false; Num (500 # 10); Num (-200 # 10)].
  split; [vm_compute; reflexivity|].
  split; [apply list_elem_of_here|].
  split; [apply list_elem_of_here|].
  vm_compute. reflexivity.
Qed.

(** C4: the value that extraction stores for a numeric token of a target
    column (a decimal literal, or a word for an infinity) is the number
    that the conversion makes of the token, and nothing is applied to it
    afterwards; its sign is the sign written in the token: a stored
    number is not above zero, and an infinity is the negative one,
    exactly when the token starts with a minus sign.  The token
    [-1.23e-4] in the imaginary column gives the number stored for
    -123/1000000, which is below zero, and [-inf] gives the negative
    infinity.  (A stored number [Num q] is named by the decimal value
    [q] that it was read from: its rounding to a 64-bit float is not
    modelled, a literal beyond the range of floats is stored as an
    infinity.) *)
Theorem C4_sign_preserved (df : DataFrame) (original_name new_name : str)
    (r : nat) (t : str) (v : value) :
  (original_name, new_name) ∈ TARGET_COLUMNS_MAP ->
  has_column df original_name = true ->
  getitem df original_name !! r = Some (Some t) ->
  parse_float t = Some v ->
  (exists col, (new_name, col) ∈ series (fst (extract_columns df))
               /\ col !! r = Some v)
  /\ sign_agrees t v
  /\ parse_float (lit "-1.23e-4") = Some (Num (-123 # 1000000))
  /\ (-123 # 1000000 < 0)%Q
  /\ parse_float (lit "-inf") = Some (Inf true)
  /\ parse_float (lit "-1e400") = Some (Inf true)
  /\ table_of sample_negative =
     Some {| header := [lit "frequency (Hz)"; lit "Z_real (Ohm)";
                        lit "Z_imag (Ohm)"];
             rows := [[Num (1000 # 1); Num (25 # 10);
                       Num (-123 # 1000000)]] |}.
Proof.
  intros Hin Hcol Hr Hv. split; [|split; [|repeat split]].
  - exists (to_numeric (getitem df original_name)). split.
    + now apply present_target.
    + now apply (to_numeric_number _ r t v).
  - now apply parse_float_sign.
Qed.

Lemma C4_witness :
  ((exists col,
       (lit "Z_imag (Ohm)", col)
         ∈ series (fst (extract_columns sample_signs_df))
       /\ col !! 0%nat = Some (Num (-123 # 1000000)))
   /\ sign_agrees (lit "-1.23e-4") (Num (-123 # 1000000)))
  /\ ((exists col,
          (lit "Z_imag (Ohm)", col)
            ∈ series (fst (extract_columns sample_signs_df))
          /\ col !! 1%nat = Some (Inf true))
      /\ sign_agrees (lit "-inf") (Inf true)).
Proof.
  split.
  - destruct (C4_sign_preserved sample_signs_df (lit "Z''(b)")
                (lit "Z_imag (Ohm)") 0 (lit "-1.23e-4") (Num (-123 # 1000000)))
      as [H1 [H2 _]].
    + do 2 apply list_elem_of_further. apply list_elem_of_here.
    + vm_compute. reflexivity.
    + vm_compute. reflexivity.
    + vm_compute. reflexivity.
    + split; [exact H1 | exact H2].
  - destruct (C4_sign_preserved sample_signs_df (lit "Z''(b)")
                (lit "Z_imag (Ohm)") 1 (lit "-inf") (Inf true))
      as [H1 [H2 _]].
    + do 2 apply list_elem_of_further. apply list_elem_of_here.
    + vm_compute. reflexivity.
    + vm_compute. reflexivity.
    + vm_compute. reflexivity.
    + split; [exact H1 | exact H2].
Defined.

Lemma sample_negative_read :
  scan_header sample_negative =
  Located (columns sample_negative_df) (lit "1000  2.5  -1.23e-4" ++ [LF])
  /\ read_csv (columns sample_negative_df) (lit "1000  2.5  -1.23e-4" ++ [LF])
     = inr sample_negative_df.
Proof. split; vm_compute; reflexivity. Qed.

(** ** Rows of the wrong width *)

Lemma getitem_length (df : DataFrame) (name : str) :
  length (getitem df name) = length (body df).
Proof. unfold getitem. apply length_map. Qed.

Lemma empty_no_rows (df : DataFrame) :
  body df = [] -> empty (extracted_table df) = true.
Proof.
  intros Hbody. unfold extracted_table. rewrite extract_columns_spec.
  cbn [fst]. unfold empty, dropna, frame_rows, frame_len. cbn [header rows series nrows].
  destruct (present_targets df) as [|item items]; [reflexivity|].
  rewrite to_numeric_length, getitem_length, Hbody. reflexivity.
Qed.

Lemma pad_length (width : nat) (row : list str) :
  (length row <= width)%nat -> length (pad width row) = width.
Proof.
  intros H. unfold pad. rewrite length_app, length_map, repeat_length. lia.
Qed.

Lemma say_say (w : world) (ds ds' : list diag) :
  say (say w ds) ds' = say w (ds ++ ds').
Proof. unfold say. cbn. now rewrite app_assoc. Qed.




(** ** The two output files *)

Lemma plain_char_no_quote (sep c : ascii) :
  sep = ","%char \/ sep = TAB -> plain_char c = true ->
  Ascii.eqb c sep || Ascii.eqb c QUOTE || bool_decide (c ∈ linesep) = false.
Proof.
  intros Hsep H. unfold plain_char in H. apply negb_true_iff in H.
  rewrite !orb_false_iff in H. destruct H as [[[H1 H2] H3] H4].
  rewrite H3. assert (Hl : bool_decide (c ∈ linesep) = false).
  { apply bool_decide_eq_false. unfold linesep. rewrite list_elem_of_singleton.
    intros ->. now rewrite Ascii.eqb_refl in H4. }
  rewrite Hl. destruct Hsep as [-> | ->]; [now rewrite H1 | now rewrite H2].
Qed.

Lemma plain_field_forall (s : str) :
  plain_field s = true -> forallb plain_char s = true /\ s <> [].
Proof. destruct s; [discriminate | intros H; split; [exact H | discriminate]]. Qed.

Lemma plain_field_unquoted (sep : ascii) (s : str) :
  sep = ","%char \/ sep = TAB -> plain_field s = true -> csv_field sep s = s.
Proof.
  intros Hsep H. apply plain_field_forall in H. destruct H as [H _].
  unfold csv_field.
  assert (Hq : needs_quote sep s = false).
  { unfold needs_quote. apply not_true_is_false. intros He.
    apply existsb_exists in He. destruct He as [c [Hc He]].
    rewrite forallb_forall in H.
    rewrite (plain_char_no_quote sep c Hsep (H c Hc)) in He. discriminate. }
  now rewrite Hq.
Qed.

Lemma plain_fields_unquoted (sep : ascii) (fields : list str) :
  sep = ","%char \/ sep = TAB ->
  Forall (fun s => plain_field s = true) fields ->
  map (csv_field sep) fields = fields.
Proof.
  intros Hsep H. induction H as [|s fields Hs _ IH]; [reflexivity|].
  cbn [map]. now rewrite (plain_field_unquoted sep s Hsep Hs), IH.
Qed.

Lemma csv_row_plain (sep : ascii) (fields : list str) :
  sep = ","%char \/ sep = TAB ->
  Forall (fun s => plain_field s = true) fields ->
  csv_row sep fields = join [sep] fields ++ linesep.
Proof.
  intros Hsep H. unfold csv_row.
  rewrite (plain_fields_unquoted sep fields Hsep H).
  destruct fields as [|[|c s] [|s' fields]]; try reflexivity.
  inversion H as [|? ? Hs _]. discriminate.
Qed.

Lemma csv_text_plain (float_repr : Q -> str) (sep : ascii) (t : Table) :
  sep = ","%char \/ sep = TAB ->
  Forall (Forall (fun s => plain_field s = true))
         (header t :: map (map (value_repr float_repr)) (rows t)) ->
  csv_text float_repr sep t =
  plain_text sep (header t :: map (map (value_repr float_repr)) (rows t)).
Proof.
  intros Hsep H. unfold csv_text, plain_text. f_equal.
  induction H as [|fields cells Hf _ IH]; [reflexivity|].
  cbn [map]. now rewrite (csv_row_plain sep fields Hsep Hf), IH.
Qed.

Lemma map_join (f : ascii -> ascii) (sep : ascii) (fields : list str) :
  map f (join [sep] fields) = join [f sep] (map (map f) fields).
Proof.
  induction fields as [|s [|s' fields] IH]; [reflexivity | reflexivity |].
  change (join [sep] (s :: s' :: fields))
    with (s ++ [sep] ++ join [sep] (s' :: fields)).
  change (join [f sep] (map (map f) (s :: s' :: fields)))
    with (map f s ++ [f sep] ++ join [f sep] (map (map f) (s' :: fields))).
  rewrite !map_app, IH. reflexivity.
Qed.

Lemma swap_delim_plain (s : str) :
  plain_field s = true -> map swap_delim s = s.
Proof.
  intros H. apply plain_field_forall in H. destruct H as [H _].
  induction s as [|c s IH]; [reflexivity|].
  cbn [forallb] in H. apply andb_true_iff in H. destruct H as [Hc Hs].
  cbn [map]. rewrite (IH Hs). f_equal.
  unfold plain_char in Hc. apply negb_true_iff in Hc.
  rewrite !orb_false_iff in Hc. destruct Hc as [[[H1 _] _] _].
  unfold swap_delim. now rewrite H1.
Qed.

Lemma swap_delim_fields (fields : list str) :
  Forall (fun s => plain_field s = true) fields ->
  map (map swap_delim) fields = fields.
Proof.
  induction 1 as [|s fields Hs _ IH]; [reflexivity|].
  cbn [map]. now rewrite (swap_delim_plain s Hs), IH.
Qed.

(** The tab separated text is the comma separated text with every comma
    turned into a tab. *)
Lemma plain_text_swap (cells : list (list str)) :
  Forall (Forall (fun s => plain_field s = true)) cells ->
  plain_text TAB cells = map swap_delim (plain_text "," cells).
Proof.
  unfold plain_text. induction 1 as [|fields cells Hf _ IH]; [reflexivity|].
  cbn [map concat]. rewrite !map_app, map_join, (swap_delim_fields _ Hf), IH.
  reflexivity.
Qed.

Lemma present_targets_sub (df : DataFrame) (item : str * str) :
  In item (present_targets df) -> In item TARGET_COLUMNS_MAP.
Proof. unfold present_targets. rewrite filter_In. tauto. Qed.

Lemma header_renamed (df : DataFrame) :
  Forall (fun h => h ∈ map snd TARGET_COLUMNS_MAP) (header (extracted_table df)).
Proof.
  unfold extracted_table. rewrite extract_columns_spec.
  cbn [fst dropna header series]. rewrite map_map. cbn [snd].
  apply Forall_forall. intros h Hh. apply list_elem_of_In, in_map_iff in Hh.
  destruct Hh as [item [<- Hitem]]. cbn [fst].
  apply list_elem_of_In, in_map. now apply (present_targets_sub df).
Qed.

Lemma renamed_plain (h : str) :
  h ∈ map snd TARGET_COLUMNS_MAP -> plain_field h = true.
Proof.
  cbn [map snd TARGET_COLUMNS_MAP]. rewrite !elem_of_cons.
  intros [-> | [-> | [-> | H]]]; [reflexivity .. | inversion H].
Qed.

Lemma value_repr_plain (float_repr : Q -> str) (v : value) :
  isna v = false -> plain_number float_repr v = true ->
  plain_field (value_repr float_repr v) = true.
Proof.
  destruct v as [|[|]|q|[|]]; cbn; intros Hna Hp;
    [discriminate | reflexivity | reflexivity | exact Hp
     | reflexivity | reflexivity].
Qed.

Lemma table_cells_plain (float_repr : Q -> str) (df : DataFrame) :
  forallb (forallb (plain_number float_repr)) (rows (extracted_table df)) = true ->
  Forall (Forall (fun s => plain_field s = true))
    (header (extracted_table df)
     :: map (map (value_repr float_repr)) (rows (extracted_table df))).
Proof.
  intros H. constructor.
  - eapply Forall_impl; [apply header_renamed | intros h; apply renamed_plain].
  - apply Forall_forall. intros fields Hf. apply list_elem_of_In, in_map_iff in Hf.
    destruct Hf as [row [<- Hrow]]. apply Forall_forall. intros s Hs.
    apply list_elem_of_In, in_map_iff in Hs. destruct Hs as [v [<- Hv]].
    rewrite forallb_forall in H. pose proof (H row Hrow) as Hr.
    rewrite forallb_forall in Hr. apply value_repr_plain; [|now apply Hr].
    apply list_elem_of_In in Hrow. unfold extracted_table in Hrow.
    apply dropna_rows in Hrow. destruct Hrow as [_ Hna].
    apply Hna. now apply list_elem_of_In.
Qed.

Lemma paths_differ (out base : str) : csv_path out base <> txt_path out base.
Proof.
  unfold csv_path, txt_path, path_join.
  assert (Hs : startswith (lit "/") (base ++ lit "_extracted.csv")
               = startswith (lit "/") (base ++ lit "_extracted.txt")).
  { destruct base; reflexivity. }
  rewrite Hs. destruct (startswith (lit "/") (base ++ lit "_extracted.txt")).
  - intros H. apply app_inv_head in H. discriminate.
  - destruct (match out with [] => true | _ :: _ => endswith (lit "/") out end);
      intros H; repeat apply app_inv_head in H; discriminate.
Qed.

Lemma table_of_some (file_content : str) (t : Table) :
  table_of file_content = Some t ->
  exists names data df,
    scan_header file_content = Located names data
    /\ read_csv names data = inr df
    /\ t = extracted_table df /\ empty t = false.
Proof.
  unfold table_of. destruct (scan_header file_content) as [| | |names data];
    try discriminate.
  destruct (read_csv names data) as [e | df] eqn:Hread; [discriminate|].
  destruct (empty (extracted_table df)) eqn:He; [discriminate|].
  intros H. injection H as <-. exists names, data, df. auto.
Qed.

(** The run that writes both files. *)
Lemma parse_success (float_repr : Q -> str) (file_content base out : str)
    (w : world) (names : list str) (data : str) (df : DataFrame) :
  scan_header file_content = Located names data ->
  read_csv names data = inr df ->
  empty (extracted_table df) = false ->
  deny w !! csv_path out base = None ->
  deny w !! txt_path out base = None ->
  parse_ascii_content float_repr file_content base out w =
  (inr tt,
   {| files := <[txt_path out base :=
                   csv_text float_repr TAB (extracted_table df)]>
                 (<[csv_path out base :=
                      csv_text float_repr "," (extracted_table df)]> (files w));
      deny := deny w;
      console := console w ++ warnings df
                 ++ [MsgSuccess (length (rows (extracted_table df)))
                                (basename (csv_path out base))] |}).
Proof.
  intros Hscan Hread He Hcsv Htxt.
  rewrite (parse_located _ _ _ _ _ _ _ _ Hscan Hread).
  unfold try_except. rewrite extract_and_save_run. cbv zeta.
  rewrite He, Hcsv, Htxt. cbn [say console]. now rewrite <- app_assoc.
Qed.

(** The run in which only the second write is refused. *)
Lemma parse_txt_refused (float_repr : Q -> str) (file_content base out : str)
    (w : world) (names : list str) (data : str) (df : DataFrame) :
  scan_header file_content = Located names data ->
  read_csv names data = inr df ->
  empty (extracted_table df) = false ->
  deny w !! csv_path out base = None ->
  deny w !! txt_path out base = Some PermissionError ->
  parse_ascii_content float_repr file_content base out w =
  (inr tt,
   {| files := <[csv_path out base :=
                   csv_text float_repr "," (extracted_table df)]> (files w);
      deny := deny w;
      console := console w ++ warnings df
                 ++ [FailPermissionDenied (basename (csv_path out base))] |}).
Proof.
  intros Hscan Hread He Hcsv Htxt.
  rewrite (parse_located _ _ _ _ _ _ _ _ Hscan Hread).
  unfold try_except. rewrite extract_and_save_run. cbv zeta.
  rewrite He, Hcsv, Htxt. cbn [parse_handler say console files deny].
  unfold print. cbv beta iota delta [files deny console].
  now rewrite <- app_assoc.
Qed.



(** C10: the two files are not written as a pair.  When the comma
    separated file can be written and opening the tab separated file
    raises a permission error, the comma separated file has been written
    and stays, the tab separated path is left as it was, and the member
    is reported as failed: no success message is printed. *)
Theorem C10_csv_written_before_txt (float_repr : Q -> str)
    (file_content base out : str) (w : world) (t : Table) :
  table_of file_content = Some t ->
  deny w !! csv_path out base = None ->
  deny w !! txt_path out base = Some PermissionError ->
  let r := parse_ascii_content float_repr file_content base out w in
  fst r = inr tt
  /\ files (snd r) = <[csv_path out base := csv_text float_repr "," t]> (files w)
  /\ files (snd r) !! csv_path out base = Some (csv_text float_repr "," t)
  /\ files (snd r) !! txt_path out base = files w !! txt_path out base
  /\ (exists ws,
        console (snd r) = console w ++ ws
                          ++ [FailPermissionDenied (basename (csv_path out base))]
        /\ (ws = [] \/ exists missing_cols, ws = [WarnMissingColumns missing_cols])).
Proof.
  intros Ht Hcsv Htxt r.
  destruct (table_of_some _ _ Ht) as [names [data [df [Hscan [Hread [-> He]]]]]].
  unfold r. rewrite (parse_txt_refused _ _ _ _ _ _ _ _ Hscan Hread He Hcsv Htxt).
  cbn [fst snd files console]. split; [reflexivity|]. split; [reflexivity|].
  split; [apply lookup_insert_eq|]. split.
  - apply lookup_insert_ne, paths_differ.
  - exists (warnings df). split; [reflexivity|]. unfold warnings.
    destruct (absent_targets df); [now left | right; eauto].
Qed.

Lemma C10_witness :
  let r := parse_ascii_content exact_repr sample_negative
             (lit "sample-Run01") OUTPUT_FOLDER txt_locked in
  files (snd r) !! lit "./Output_Data/sample-Run01_extracted.csv"
  = Some (lit "frequency (Hz),Z_real (Ohm),Z_imag (Ohm)" ++ [LF]
          ++ lit "1000/1,25/10,-123/1000000" ++ [LF])
  /\ files (snd r) !! lit "./Output_Data/sample-Run01_extracted.txt" = None
  /\ console (snd r)
     = [FailPermissionDenied (lit "sample-Run01_extracted.csv")].
Proof.
  destruct (C10_csv_written_before_txt exact_repr sample_negative
              (lit "sample-Run01") OUTPUT_FOLDER txt_locked
              {| header := [lit "frequency (Hz)"; lit "Z_real (Ohm)";
                            lit "Z_imag (Ohm)"];
                 rows := [[Num (1000 # 1); Num (25 # 10);
                           Num (-123 # 1000000)]] |})
    as [_ [_ [H3 [H4 _]]]].
  - vm_compute. reflexivity.
  - vm_compute. reflexivity.
  - vm_compute. reflexivity.
  - split; [exact H3|]. split; [exact H4|]. vm_compute. reflexivity.
Defined.

(** ** The batch *)

Lemma returns_pair (m : M unit) (w : world) :
  fst (m w) = inr tt -> m w = (inr tt, snd (m w)).
Proof. destruct (m w) as [[e | []] w']; cbn; [discriminate | reflexivity]. Qed.

Lemma for_each_returns {A} (body : A -> M unit) (xs : list A) (w : world) :
  (forall x w, x ∈ xs -> fst (body x w) = inr tt) ->
  for_each body xs w = (inr tt, fold_left (fun w x => snd (body x w)) xs w).
Proof.
  revert w. induction xs as [|x xs IH]; intros w H; [reflexivity|].
  cbn [for_each fold_left]. unfold bind.
  rewrite (returns_pair (body x) w) by (apply H; apply list_elem_of_here).
  apply IH. intros y w' Hy. apply H. now apply list_elem_of_further.
Qed.

Lemma for_each_raises {A} (body : A -> M unit) (xs : list A) (x : A)
    (ys : list A) (w : world) (e : exn) :
  (forall y w, y ∈ xs -> fst (body y w) = inr tt) ->
  (forall w, fst (body x w) = inl e) ->
  for_each body (xs ++ x :: ys) w =
  (inl e, snd (body x (fold_left (fun w y => snd (body y w)) xs w))).
Proof.
  revert w. induction xs as [|y xs IH]; intros w Hok Hx.
  - cbn [app for_each fold_left]. unfold bind.
    pose proof (Hx w) as H. destruct (body x w) as [[e' | u] w']; cbn in *;
      congruence.
  - cbn [app for_each fold_left]. unfold bind.
    rewrite (returns_pair (body y) w) by (apply Hok; apply list_elem_of_here).
    apply IH; [|exact Hx]. intros z w' Hz. apply Hok.
    now apply list_elem_of_further.
Qed.

Lemma process_member_returns (float_repr : Q -> str)
    (entries : list (str * read_result)) (base out name : str) (w : world) :
  (exists data, zip_read entries name = inr data) ->
  fst (process_member float_repr entries base out name w) = inr tt.
Proof.
  intros [data Hread]. unfold process_member, bind, print, lift.
  rewrite Hread. cbn [ret decode_latin1]. apply parse_ascii_content_returns.
Qed.

Lemma process_member_raises (float_repr : Q -> str)
    (entries : list (str * read_result)) (base out name : str) (w : world)
    (e : exn) :
  zip_read entries name = inl e ->
  process_member float_repr entries base out name w
  = (inl e, say w [MsgParsing name]).
Proof.
  intros Hread. unfold process_member, bind, print, lift.
  now rewrite Hread.
Qed.

Lemma process_handler_total (base : str) (e : exn) :
  exists d, process_handler base e = Some (print d).
Proof. destruct e; simpl; eauto. Qed.

Lemma process_mdat_file_returns (float_repr : Q -> str) (a : archive)
    (out : str) (w : world) :
  fst (process_mdat_file float_repr a out w) = inr tt.
Proof.
  unfold process_mdat_file, bind, print, try_except.
  destruct (process_body float_repr a out _) as [[e | []] w'].
  - destruct (process_handler_total (basename (file_path a)) e) as [d ->].
    reflexivity.
  - reflexivity.
Qed.

(** *** The console only grows *)

Lemma appends_ret {A} (a : A) : appends (ret a).
Proof. intros w. exists []. cbn. now rewrite app_nil_r. Qed.

Lemma appends_raise {A} (e : exn) : appends (@raise A e).
Proof. intros w. exists []. cbn. now rewrite app_nil_r. Qed.

Lemma appends_lift {A} (r : exn + A) : appends (lift r).
Proof. destruct r; [apply appends_raise | apply appends_ret]. Qed.

Lemma appends_print (d : diag) : appends (print d).
Proof. intros w. exists [d]. reflexivity. Qed.

Lemma appends_write_file (path content : str) : appends (write_file path content).
Proof.
  intros w. exists []. unfold write_file.
  destruct (deny w !! path); cbn; now rewrite app_nil_r.
Qed.

Create HintDb io.
#[local] Hint Resolve appends_ret appends_raise appends_lift appends_print
  appends_write_file : io.

Lemma appends_bind {A B} (m : M A) (k : A -> M B) :
  appends m -> (forall a, appends (k a)) -> appends (bind m k).
Proof.
  intros Hm Hk w. unfold bind. destruct (Hm w) as [ds Hds].
  destruct (m w) as [[e | a] w']; cbn in *.
  - now exists ds.
  - destruct (Hk a w') as [ds' Hds']. exists (ds ++ ds').
    now rewrite Hds', Hds, app_assoc.
Qed.

Lemma appends_try_except {A} (body : M A) (handler : exn -> option (M A)) :
  appends body -> (forall e h, handler e = Some h -> appends h) ->
  appends (try_except body handler).
Proof.
  intros Hb Hh w. unfold try_except. destruct (Hb w) as [ds Hds].
  destruct (body w) as [[e | a] w']; cbn in *.
  - destruct (handler e) as [h|] eqn:E; [|now exists ds].
    destruct (Hh e h E w') as [ds' Hds']. exists (ds ++ ds').
    now rewrite Hds', Hds, app_assoc.
  - now exists ds.
Qed.

Lemma appends_for_each {A} (body : A -> M unit) (xs : list A) :
  (forall x, appends (body x)) -> appends (for_each body xs).
Proof.
  intros H. induction xs as [|x xs IH]; [apply appends_ret|].
  cbn [for_each]. apply appends_bind; [apply H | intros _; exact IH].
Qed.

Lemma appends_extract_and_save (float_repr : Q -> str) (df : DataFrame)
    (base out : str) : appends (extract_and_save float_repr df base out).
Proof.
  unfold extract_and_save. destruct (extract_columns df) as [f missing].
  apply appends_bind.
  - destruct missing; auto with io.
  - intros _. destruct (empty (dropna f)); [auto with io|].
    unfold to_csv. repeat (apply appends_bind; [auto with io | intros _]).
    auto with io.
Qed.

Lemma appends_parse_ascii_content (float_repr : Q -> str)
    (file_content base out : str) :
  appends (parse_ascii_content float_repr file_content base out).
Proof.
  unfold parse_ascii_content. apply appends_try_except.
  - unfold parse_body. destruct (scan_header file_content);
      try apply appends_print.
    apply appends_bind; [apply appends_lift|].
    intros df. apply appends_extract_and_save.
  - intros e h He. destruct (parse_handler_total base out e) as [d Hd].
    rewrite Hd in He. injection He as <-. apply appends_print.
Qed.

Lemma appends_member_rest (float_repr : Q -> str)
    (entries : list (str * read_result)) (base out name : str) :
  appends (file_data <- lift (zip_read entries name) ;;
           match decode_latin1 file_data with
           | inl _ => print (MsgDecodeFailed name)
           | inr file_content =>
             parse_ascii_content float_repr file_content
               (output_base_name base name) out
           end).
Proof.
  apply appends_bind; [apply appends_lift | intros data].
  cbn [decode_latin1]. apply appends_parse_ascii_content.
Qed.

Lemma appends_process_member (float_repr : Q -> str)
    (entries : list (str * read_result)) (base out name : str) :
  appends (process_member float_repr entries base out name).
Proof.
  unfold process_member. apply appends_bind; [apply appends_print | intros _].
  apply appends_member_rest.
Qed.

Lemma appends_archive_rest (float_repr : Q -> str) (a : archive) (out : str) :
  appends (try_except (process_body float_repr a out)
                      (process_handler (basename (file_path a)))).
Proof.
  apply appends_try_except.
  - unfold process_body. destruct (on_disk a) as [|e|entries].
    + apply appends_print.
    + apply appends_raise.
    + destruct (ac_files entries) as [|n ns]; [apply appends_print|].
      apply appends_bind; [apply appends_print | intros _].
      apply appends_for_each. intros x. apply appends_process_member.
  - intros e h He.
    destruct (process_handler_total (basename (file_path a)) e) as [d Hd].
    rewrite Hd in He. injection He as <-. apply appends_print.
Qed.

Lemma appends_process_mdat_file (float_repr : Q -> str) (a : archive)
    (out : str) : appends (process_mdat_file float_repr a out).
Proof.
  unfold process_mdat_file. apply appends_bind; [apply appends_print | intros _].
  apply appends_archive_rest.
Qed.

(** What is printed first stays on the console. *)
Lemma bind_print_mark {B} (d : diag) (k : M B) (w : world) :
  appends k -> d ∈ console (snd ((print d ;; k) w)).
Proof.
  intros Hk. unfold bind, print.
  destruct (Hk {| files := files w; deny := deny w;
                  console := console w ++ [d] |}) as [ds Hds].
  rewrite Hds. cbn [console]. apply elem_of_app. left.
  apply elem_of_app. right. apply list_elem_of_here.
Qed.

(** A loop whose body always returns, only adds to the console and
    prints a mark for its item, prints the mark of every item. *)
Lemma for_each_visits {A} (body : A -> M unit) (mark : A -> diag)
    (xs : list A) (w : world) (x : A) :
  (forall y w, y ∈ xs -> fst (body y w) = inr tt) ->
  (forall y, appends (body y)) ->
  (forall y w, mark y ∈ console (snd (body y w))) ->
  x ∈ xs -> mark x ∈ console (snd (for_each body xs w)).
Proof.
  intros Hret Happ Hmark. revert w.
  induction xs as [|y xs IH]; intros w Hx; [inversion Hx|].
  cbn [for_each]. unfold bind.
  rewrite (returns_pair (body y) w) by (apply Hret; apply list_elem_of_here).
  apply elem_of_cons in Hx. destruct Hx as [-> | Hx].
  - destruct (appends_for_each body xs Happ (snd (body y w))) as [ds Hds].
    rewrite Hds. apply elem_of_app. left. apply Hmark.
  - apply IH; [|exact Hx]. intros z w' Hz. apply Hret.
    now apply list_elem_of_further.
Qed.

Lemma process_mdat_file_mark (float_repr : Q -> str) (a : archive)
    (out : str) (w : world) :
  MsgProcessing (basename (file_path a))
    ∈ console (snd (process_mdat_file float_repr a out w)).
Proof.
  unfold process_mdat_file. apply bind_print_mark, appends_archive_rest.
Qed.

Lemma process_member_mark (float_repr : Q -> str)
    (entries : list (str * read_result)) (base out name : str) (w : world) :
  MsgParsing name
    ∈ console (snd (process_member float_repr entries base out name w)).
Proof.
  unfold process_member. apply bind_print_mark, appends_member_rest.
Qed.

Lemma main_returns (float_repr : Q -> str) (input_exists output_exists : bool)
    (found : list archive) (w : world) :
  fst (main float_repr input_exists output_exists found w) = inr tt.
Proof.
  unfold main, bind. cbn [print].
  destruct input_exists; cbn [negb]; [|reflexivity].
  set (w1 := {| files := _; deny := _; console := _ |}).
  assert (Hout : exists w2,
             (if negb output_exists then print MsgOutputCreated else ret tt) w1
             = (inr tt, w2)).
  { destruct output_exists; cbn; eauto. }
  destruct Hout as [w2 ->].
  destruct found as [|a found]; [reflexivity|]. cbn [print].
  rewrite for_each_returns; [reflexivity|].
  intros b w' _. apply process_mdat_file_returns.
Qed.




(** * Further properties of the script *)

(** ** Writes are laid over the files *)

Lemma overlays_mono {A} (P Q : str -> Prop) (m : M A) :
  (forall p, P p -> Q p) -> overlays P m -> overlays Q m.
Proof.
  intros HPQ Hm dn. destruct (Hm dn) as [r [W [HW H]]].
  exists r, W. split; [intros p c Hp; eapply HPQ, HW, Hp | exact H].
Qed.

Lemma overlays_pure {A} (P : str -> Prop) (m : M A) (r : exn + A) :
  (forall w, fst (m w) = r /\ files (snd (m w)) = files w /\
             deny (snd (m w)) = deny w) ->
  overlays P m.
Proof.
  intros H dn. exists r, ∅. split.
  - intros p c Hp. rewrite lookup_empty in Hp. discriminate.
  - intros w Hw. destruct (H w) as [H1 [H2 H3]].
    rewrite H1, H2, H3, (left_id_L ∅ (∪)). auto.
Qed.

Lemma overlays_ret {A} (P : str -> Prop) (a : A) : overlays P (ret a).
Proof. apply (overlays_pure P _ (inr a)). intros w. cbn. auto. Qed.

Lemma overlays_raise {A} (P : str -> Prop) (e : exn) : overlays P (@raise A e).
Proof. apply (overlays_pure P _ (inl e)). intros w. cbn. auto. Qed.

Lemma overlays_lift {A} (P : str -> Prop) (r : exn + A) : overlays P (lift r).
Proof. destruct r; [apply overlays_raise | apply overlays_ret]. Qed.

Lemma overlays_print (P : str -> Prop) (d : diag) : overlays P (print d).
Proof. apply (overlays_pure P _ (inr tt)). intros w. cbn. auto. Qed.

Lemma overlays_write_file (P : str -> Prop) (path content : str) :
  P path -> overlays P (write_file path content).
Proof.
  intros HP dn. unfold write_file. destruct (dn !! path) as [e|] eqn:E.
  - exists (inl e), ∅. split.
    + intros p c Hp. rewrite lookup_empty in Hp. discriminate.
    + intros w <-. rewrite E. cbn. rewrite (left_id_L ∅ (∪)). auto.
  - exists (inr tt), {[ path := content ]}. split.
    + intros p c Hp. apply lookup_singleton_Some in Hp. destruct Hp as [<- _].
      exact HP.
    + intros w <-. rewrite E. cbn. rewrite insert_union_singleton_l. auto.
Qed.

Lemma overlays_bind {A B} (P : str -> Prop) (m : M A) (k : A -> M B) :
  overlays P m -> (forall a, overlays P (k a)) -> overlays P (bind m k).
Proof.
  intros Hm Hk dn. destruct (Hm dn) as [r [W [HW H]]].
  destruct r as [e | a].
  - exists (inl e), W. split; [exact HW|]. intros w Hw.
    destruct (H w Hw) as [H1 [H2 H3]]. unfold bind.
    destruct (m w) as [[e' | a'] w']; cbn in *; [|discriminate].
    injection H1 as ->. auto.
  - destruct (Hk a dn) as [r' [W' [HW' H']]].
    exists r', (W' ∪ W). split.
    + intros p c Hp. apply lookup_union_Some_raw in Hp.
      destruct Hp as [Hp | [_ Hp]]; [eapply HW', Hp | eapply HW, Hp].
    + intros w Hw. destruct (H w Hw) as [H1 [H2 H3]]. unfold bind.
      destruct (m w) as [[e' | a'] w']; cbn in *; [discriminate|].
      injection H1 as ->. destruct (H' w' H3) as [H1' [H2' H3']].
      rewrite H1', H2', H2, H3', (assoc_L (∪)). auto.
Qed.

Lemma overlays_try_except {A} (P : str -> Prop) (body : M A)
    (handler : exn -> option (M A)) :
  overlays P body -> (forall e h, handler e = Some h -> overlays P h) ->
  overlays P (try_except body handler).
Proof.
  intros Hb Hh dn. destruct (Hb dn) as [r [W [HW H]]].
  destruct r as [e | a].
  - destruct (handler e) as [h|] eqn:E.
    + destruct (Hh e h E dn) as [r' [W' [HW' H']]].
      exists r', (W' ∪ W). split.
      * intros p c Hp. apply lookup_union_Some_raw in Hp.
        destruct Hp as [Hp | [_ Hp]]; [eapply HW', Hp | eapply HW, Hp].
      * intros w Hw. destruct (H w Hw) as [H1 [H2 H3]]. unfold try_except.
        destruct (body w) as [[e' | a'] w']; cbn in *; [|discriminate].
        injection H1 as ->. rewrite E.
        destruct (H' w' H3) as [H1' [H2' H3']].
        rewrite H1', H2', H2, H3', (assoc_L (∪)). auto.
    + exists (inl e), W. split; [exact HW|]. intros w Hw.
      destruct (H w Hw) as [H1 [H2 H3]]. unfold try_except.
      destruct (body w) as [[e' | a'] w']; cbn in *; [|discriminate].
      injection H1 as ->. rewrite E. auto.
  - exists (inr a), W. split; [exact HW|]. intros w Hw.
    destruct (H w Hw) as [H1 [H2 H3]]. unfold try_except.
    destruct (body w) as [[e' | a'] w']; cbn in *; [discriminate|].
    injection H1 as ->. auto.
Qed.

Lemma overlays_for_each {A} (P : str -> Prop) (body : A -> M unit)
    (xs : list A) :
  (forall x, overlays P (body x)) -> overlays P (for_each body xs).
Proof.
  intros H. induction xs as [|x xs IH]; [apply overlays_ret|].
  cbn [for_each]. apply overlays_bind; [apply H | intros _; exact IH].
Qed.

(** Running an overlaying computation again on its own result changes no
    file. *)
Lemma overlays_idempotent {A} (P : str -> Prop) (m : M A) (w : world) :
  overlays P m -> files (snd (m (snd (m w)))) = files (snd (m w)).
Proof.
  intros Hm. destruct (Hm (deny w)) as [r [W [_ H]]].
  destruct (H w eq_refl) as [_ [H2 H3]].
  destruct (H (snd (m w)) H3) as [_ [H2' _]].
  rewrite H2', H2, (assoc_L (∪)), (idemp (∪) W). reflexivity.
Qed.

(** A path outside [P] keeps its content. *)
Lemma overlays_frame {A} (P : str -> Prop) (m : M A) (w : world) (p : str) :
  overlays P m -> files (snd (m w)) !! p = files w !! p \/ P p.
Proof.
  intros Hm. destruct (Hm (deny w)) as [r [W [HW H]]].
  destruct (H w eq_refl) as [_ [H2 _]]. rewrite H2.
  destruct (W !! p) as [c|] eqn:E.
  - right. eapply HW, E.
  - left. now apply lookup_union_r.
Qed.

Lemma overlays_parse_ascii_content (float_repr : Q -> str)
    (file_content base out : str) :
  overlays (member_path out base)
           (parse_ascii_content float_repr file_content base out).
Proof.
  unfold parse_ascii_content. apply overlays_try_except.
  - unfold parse_body. destruct (scan_header file_content);
      try apply overlays_print.
    apply overlays_bind; [apply overlays_lift | intros df].
    unfold extract_and_save. destruct (extract_columns df) as [f missing].
    apply overlays_bind.
    + destruct missing; [apply overlays_ret | apply overlays_print].
    + intros _. destruct (empty (dropna f)); [apply overlays_print|].
      unfold to_csv.
      apply overlays_bind; [apply overlays_write_file; now left | intros _].
      apply overlays_bind; [apply overlays_write_file; now right | intros _].
      apply overlays_print.
  - intros e h He. destruct (parse_handler_total base out e) as [d Hd].
    rewrite Hd in He. injection He as <-. apply overlays_print.
Qed.

(** ** Output names stay inside the output folder *)

Lemma mdat_base_no_sep (file_path : str) : "/"%char ∉ mdat_base file_path.
Proof.
  unfold mdat_base. intros H. apply splitext_root_sub in H.
  exact (basename_no_sep (C := ascii) file_path H).
Qed.

Lemma run_token_no_sep (t : str) : is_run_token t -> "/"%char ∉ t.
Proof.
  intros Ht. apply is_run_token_8bit_spec in Ht.
  destruct Ht as [r [ds [-> [Hr [_ Hds]]]]]. rewrite not_elem_of_app. split.
  - intros Hin. apply list_elem_of_In, (in_map lower_char) in Hin.
    change (map lower_char r) with (lower r) in Hin. rewrite Hr in Hin.
    vm_compute in Hin. intuition discriminate.
  - intros Hin. rewrite Forall_forall in Hds. apply Hds in Hin. discriminate.
Qed.

Lemma output_base_name_no_sep (mdat_base sub_file_name : str) :
  "/"%char ∉ mdat_base ->
  "/"%char ∉ output_base_name mdat_base sub_file_name.
Proof.
  intros Hb. unfold output_base_name.
  destruct (search_run sub_file_name) as [m|] eqn:E.
  - destruct (search_run_some _ _ E) as [pre [post [_ [Hm _]]]].
    destruct (match_run_some _ _ Hm) as [_ [_ [Ht _]]].
    rewrite !not_elem_of_app. split; [exact Hb|]. split.
    + intros H. apply list_elem_of_singleton in H. discriminate.
    + now apply run_token_no_sep.
  - intros H. apply splitext_root_sub in H.
    apply (replace_char_absent (C := ascii) "/"%char "_"%char sub_file_name);
      [discriminate | exact H].
Qed.

Lemma path_in_output_folder (base suffix : str) :
  "/"%char ∉ base -> startswith (lit "/") suffix = false ->
  suffix <> [] ->
  path_join OUTPUT_FOLDER (base ++ suffix)
  = OUTPUT_FOLDER ++ lit "/" ++ base ++ suffix.
Proof.
  intros Hb Hs Hne. unfold path_join.
  assert (H : startswith (lit "/") (base ++ suffix) = false).
  { destruct base as [|c base].
    - exact Hs.
    - apply not_elem_of_cons in Hb. destruct Hb as [Hc _].
      change (startswith (lit "/") ((c :: base) ++ suffix))
        with (Ascii.eqb "/" c && true).
      destruct (Ascii.eqb_spec "/" c); [congruence | reflexivity]. }
  rewrite H. reflexivity.
Qed.

(** X1: the output base name of a member never holds a slash, whatever
    the archive path and the member path are, so both output files of
    the member lie directly in the output folder. *)
Theorem X1_output_stays_in_folder (file_path sub_file_name : str) :
  let base := output_base_name (mdat_base file_path) sub_file_name in
  ("/"%char ∉ base)
  /\ csv_path OUTPUT_FOLDER base
     = OUTPUT_FOLDER ++ lit "/" ++ base ++ lit "_extracted.csv"
  /\ txt_path OUTPUT_FOLDER base
     = OUTPUT_FOLDER ++ lit "/" ++ base ++ lit "_extracted.txt".
Proof.
  intros base.
  assert (Hb : "/"%char ∉ base)
    by apply output_base_name_no_sep, mdat_base_no_sep.
  split; [exact Hb|]. unfold csv_path, txt_path.
  split; apply path_in_output_folder; auto; discriminate.
Qed.

Lemma member_path_in_output_folder (base p : str) :
  "/"%char ∉ base -> member_path OUTPUT_FOLDER base p -> in_output_folder p.
Proof.
  intros Hb [-> | ->]; exists base; (split; [exact Hb|]);
    unfold csv_path, txt_path; rewrite path_in_output_folder; auto;
    discriminate.
Qed.

Lemma overlays_process_member (float_repr : Q -> str)
    (entries : list (str * read_result)) (file_path name : str) :
  overlays in_output_folder
    (process_member float_repr entries (mdat_base file_path) OUTPUT_FOLDER name).
Proof.
  unfold process_member. apply overlays_bind; [apply overlays_print | intros _].
  apply overlays_bind; [apply overlays_lift | intros data].
  cbn [decode_latin1].
  eapply overlays_mono; [|apply overlays_parse_ascii_content].
  intros p. apply member_path_in_output_folder.
  apply output_base_name_no_sep, mdat_base_no_sep.
Qed.

Lemma overlays_process_mdat_file (float_repr : Q -> str) (a : archive) :
  overlays in_output_folder (process_mdat_file float_repr a OUTPUT_FOLDER).
Proof.
  unfold process_mdat_file. apply overlays_bind; [apply overlays_print | intros _].
  apply overlays_try_except.
  - unfold process_body. destruct (on_disk a) as [|e|entries].
    + apply overlays_print.
    + apply overlays_raise.
    + destruct (ac_files entries) as [|n ns]; [apply overlays_print|].
      apply overlays_bind; [apply overlays_print | intros _].
      apply overlays_for_each. intros x. apply overlays_process_member.
  - intros e h He.
    destruct (process_handler_total (basename (file_path a)) e) as [d Hd].
    rewrite Hd in He. injection He as <-. apply overlays_print.
Qed.

Lemma overlays_main (float_repr : Q -> str) (input_exists output_exists : bool)
    (found : list archive) :
  overlays in_output_folder (main float_repr input_exists output_exists found).
Proof.
  unfold main. apply overlays_bind; [apply overlays_print | intros _].
  destruct (negb input_exists); [apply overlays_print|].
  apply overlays_bind.
  - destruct (negb output_exists); [apply overlays_print | apply overlays_ret].
  - intros _. destruct found as [|a found]; [apply overlays_print|].
    apply overlays_bind; [apply overlays_print | intros _].
    apply overlays_bind; [|intros _; apply overlays_print].
    apply overlays_for_each. intros x. apply overlays_process_mdat_file.
Qed.

(** X2: processing an archive a second time, with the same write
    permissions, leaves every file as the first processing left it.  So
    does a second run of the whole batch that takes the archives in the
    order of the first run.  The order matters: the base name of a member
    without run token does not hold the name of its archive, so two
    archives can write the same file, and the one processed last
    decides its content. *)
Theorem X2_batch_idempotent (float_repr : Q -> str)
    (input_exists output_exists : bool) (found : list archive)
    (a : archive) (w : world) :
  let one := process_mdat_file float_repr a OUTPUT_FOLDER in
  let run := main float_repr input_exists output_exists found in
  files (snd (one (snd (one w)))) = files (snd (one w))
  /\ files (snd (run (snd (run w)))) = files (snd (run w))
  /\ deny (snd (run w)) = deny w
  /\ files (snd (main exact_repr true true [first_fallback; second_fallback]
                   fresh))
     <> files (snd (main exact_repr true true [second_fallback; first_fallback]
                      fresh)).
Proof.
  intros one run. split; [|split; [|split]].
  - apply (overlays_idempotent in_output_folder), overlays_process_mdat_file.
  - apply (overlays_idempotent in_output_folder), overlays_main.
  - destruct (overlays_main float_repr input_exists output_exists found (deny w))
      as [r [W [_ H]]].
    now destruct (H w eq_refl) as [_ [_ H3]].
  - intros H.
    apply (f_equal (fun fs : gmap str str =>
                      fs !! lit "./Output_Data/data_ac_extracted.csv")) in H.
    vm_compute in H. discriminate.
Qed.

(** X3: the batch changes no file other than files directly inside the
    output folder whose name ends in [_extracted.csv] or
    [_extracted.txt]: any other path has after the run the content it
    had before (or is still absent). *)
Theorem X3_batch_writes_only_outputs (float_repr : Q -> str)
    (input_exists output_exists : bool) (found : list archive) (w : world)
    (p : str) :
  files (snd (main float_repr input_exists output_exists found w)) !! p
  = files w !! p
  \/ in_output_folder p.
Proof. apply overlays_frame, overlays_main. Qed.

(** ** The header scan, case by case *)

Lemma scan_header_cases (file_content : str) :
  let lines := splitlines file_content in
  (marker_absent lines /\ scan_header file_content = NoEndHeader)
  \/ exists i,
       first_marker_at lines i /\
       (((i < 2)%nat /\ scan_header file_content = HeaderTooShort)
        \/ ((2 <= i)%nat /\ (length lines <= i + 1)%nat /\
            scan_header file_content = NoDataAfterHeader)
        \/ ((2 <= i)%nat /\ (i + 1 < length lines)%nat /\
            scan_header file_content =
            Located (re_split_ws (strip (nth (i - 2) lines [])))
                    (concat (skipn (i + 1) lines)))).
Proof.
  intros lines.
  destruct (find_end_header_range lines 0) as [Hr | Hr].
  - left. split; [now apply (find_end_header_absent_sound lines 0)|].
    unfold scan_header. fold lines. now rewrite Hr.
  - right. exists (Z.to_nat (find_end_header 0 lines)).
    assert (Hfirst : first_marker_at lines (Z.to_nat (find_end_header 0 lines))).
    { apply (find_end_header_sound lines 0); lia. }
    split; [exact Hfirst|].
    set (i := Z.to_nat (find_end_header 0 lines)) in *.
    destruct (le_lt_dec 2 i) as [H2 | H2]; [|left; split; [lia|]].
    + destruct (le_lt_dec (length lines) (i + 1)) as [Hl | Hl].
      * right. left. split; [exact H2|]. split; [exact Hl|].
        unfold scan_header. fold lines.
        destruct (Z.eqb_spec (find_end_header 0 lines) (-1)); [lia|].
        destruct (Z.ltb_spec (find_end_header 0 lines - 2) 0); [lia|].
        destruct (Z.geb_spec (find_end_header 0 lines + 1)
                    (Z.of_nat (length lines))); [reflexivity | lia].
      * right. right. split; [exact H2|]. split; [exact Hl|].
        now apply scan_header_located.
    + unfold scan_header. fold lines.
      destruct (Z.eqb_spec (find_end_header 0 lines) (-1)); [lia|].
      destruct (Z.ltb_spec (find_end_header 0 lines - 2) 0); [reflexivity | lia].
Qed.

(** X4: the three skip reasons of the parser, exactly.  "No header
    terminator" is given when, and only when, no line holds the marker;
    "header too short" when the first marker line is the first or second
    line of the text, whether or not data follows it; "no data" when the
    first marker line has index 2 or more and is the last line. *)
Theorem X4_skip_reasons (file_content : str) :
  let lines := splitlines file_content in
  (scan_header file_content = NoEndHeader <-> marker_absent lines)
  /\ (scan_header file_content = HeaderTooShort <->
      exists i, first_marker_at lines i /\ (i < 2)%nat)
  /\ (scan_header file_content = NoDataAfterHeader <->
      exists i, first_marker_at lines i /\ (2 <= i)%nat /\
                (length lines <= i + 1)%nat).
Proof.
  intros lines.
  pose proof (scan_header_cases file_content) as Hc. fold lines in Hc.
  split; [|split]; split.
  - intros H. destruct Hc as [[Ha _] | [i [_ [[_ E] | [[_ [_ E]] | [_ [_ E]]]]]]];
      [exact Ha | congruence ..].
  - intros Ha. unfold scan_header. fold lines.
    now rewrite (find_end_header_absent lines 0 Ha).
  - intros H. destruct Hc as [[_ E] | [i [Hf [[Hi _] | [[_ [_ E]] | [_ [_ E]]]]]]];
      [congruence | eauto | congruence ..].
  - intros [i [Hf Hi]]. unfold scan_header. fold lines.
    rewrite (find_end_header_first lines i 0 Hf).
    destruct (Z.eqb_spec (0 + Z.of_nat i) (-1)); [lia|].
    destruct (Z.ltb_spec (0 + Z.of_nat i - 2) 0); [reflexivity | lia].
  - intros H. destruct Hc as [[_ E] | [i [Hf [[_ E] | [[H2 [Hl _]] | [_ [_ E]]]]]]];
      [congruence | congruence | eauto | congruence].
  - intros [i [Hf [H2 Hl]]]. unfold scan_header. fold lines.
    rewrite (find_end_header_first lines i 0 Hf).
    destruct (Z.eqb_spec (0 + Z.of_nat i) (-1)); [lia|].
    destruct (Z.ltb_spec (0 + Z.of_nat i - 2) 0); [lia|].
    destruct (Z.geb_spec (0 + Z.of_nat i + 1) (Z.of_nat (length lines)));
      [reflexivity | lia].
Qed.

(** ** The text before and after the marker line *)

Lemma concat_splitlines_bounded (n : nat) (s : str) :
  (length s <= n)%nat -> concat (splitlines s) = s.
Proof.
  revert s. induction n as [|n IH]; intros s Hn.
  - destruct s; [reflexivity | simpl in Hn; lia].
  - destruct s as [|c s]; [reflexivity|]. simpl in Hn.
    cbn [splitlines]. destruct (is_linebreak c).
    + destruct s as [|c' s]; [reflexivity|].
      destruct (is_cr c && is_lf c').
      * cbn [concat app]. rewrite IH; [reflexivity | simpl in Hn; lia].
      * cbn [concat app]. rewrite IH; [reflexivity | lia].
    + rewrite concat_push_char, IH; [reflexivity | lia].
Qed.

(** Joining the lines gives the text back. *)
Lemma concat_splitlines (s : str) : concat (splitlines s) = s.
Proof. apply (concat_splitlines_bounded (length s)). lia. Qed.

Lemma push_char_nonempty (c : ascii) (ls : list str) :
  Forall (fun l => l <> []) ls -> Forall (fun l => l <> []) (push_char c ls).
Proof.
  intros H. destruct ls as [|l ls]; cbn.
  - repeat constructor. discriminate.
  - inversion H; subst. constructor; [discriminate | assumption].
Qed.

Lemma splitlines_nonempty_bounded (n : nat) (s : str) :
  (length s <= n)%nat -> Forall (fun l => l <> []) (splitlines s).
Proof.
  revert s. induction n as [|n IH]; intros s Hn.
  - destruct s; [constructor | simpl in Hn; lia].
  - destruct s as [|c s]; [constructor|]. simpl in Hn.
    cbn [splitlines]. destruct (is_linebreak c).
    + destruct s as [|c' s]; [repeat constructor; discriminate|].
      destruct (is_cr c && is_lf c'); constructor; try discriminate;
        apply IH; simpl in *; lia.
    + apply push_char_nonempty, IH. lia.
Qed.

Lemma splitlines_nonempty (s : str) : Forall (fun l => l <> []) (splitlines s).
Proof. apply (splitlines_nonempty_bounded (length s)). lia. Qed.

Lemma re_split_ws_nonempty (s : str) : re_split_ws s <> [].
Proof.
  induction s as [|c s IH]; cbn [re_split_ws]; [discriminate|].
  destruct (isspace c).
  - destruct (starts_with_space s); [exact IH | discriminate].
  - destruct (re_split_ws s); discriminate.
Qed.

(** X5: when the parser goes on to read data, the member text is the
    lines before the first marker line, that marker line, and the data
    block, in this order: the data block is the text of all the lines
    after the first marker line and nothing else, it is not empty, and
    there is at least one column name. *)
Theorem X5_data_is_text_after_marker (file_content : str)
    (column_names : list str) (data : str) :
  scan_header file_content = Located column_names data ->
  let lines := splitlines file_content in
  exists i marker_line,
    first_marker_at lines i
    /\ lines !! i = Some marker_line
    /\ file_content = concat (firstn i lines) ++ marker_line ++ data
    /\ data = concat (skipn (S i) lines)
    /\ data <> [] /\ column_names <> [].
Proof.
  intros Hscan lines. subst lines.
  destruct (scan_header_cases file_content)
    as [[_ E] | [i [Hf [[_ E] | [[_ [_ E]] | [H2 [Hl E]]]]]]]; try congruence.
  rewrite E in Hscan. injection Hscan as <- <-.
  pose proof Hf as [[line [Hi Hm]] _].
  exists i, line. rewrite Nat.add_1_r.
  split; [exact Hf|]. split; [exact Hi|]. split; [|split; [reflexivity|split]].
  - rewrite <- (concat_splitlines file_content) at 1.
    rewrite <- (take_drop_middle _ _ _ Hi) at 1.
    rewrite concat_app. reflexivity.
  - pose proof (splitlines_nonempty file_content) as Hne.
    destruct (skipn (S i) (splitlines file_content)) as [|l ls] eqn:Es.
    + apply (f_equal (@length _)) in Es. rewrite length_skipn in Es.
      simpl in Es. lia.
    + assert (Hl' : l <> []).
      { rewrite Forall_forall in Hne. apply Hne.
        rewrite <- (firstn_skipn (S i) (splitlines file_content)), Es.
        apply elem_of_app. right. apply list_elem_of_here. }
      cbn [concat]. destruct l; [congruence | discriminate].
  - apply re_split_ws_nonempty.
Qed.

Lemma X5_witness :
  exists i marker_line,
    first_marker_at (splitlines sample_member) i
    /\ splitlines sample_member !! i = Some marker_line
    /\ sample_member
       = concat (firstn i (splitlines sample_member)) ++ marker_line
         ++ (lit "100  50.0  -20.0" ++ [LF])
    /\ lit "100  50.0  -20.0" ++ [LF]
       = concat (skipn (S i) (splitlines sample_member))
    /\ lit "100  50.0  -20.0" ++ [LF] <> []
    /\ [lit "Freq(Hz)"; lit "Z'(a)"; lit "Z''(b)"] <> [].
Proof.
  apply (X5_data_is_text_after_marker sample_member).
  vm_compute. reflexivity.
Defined.

(** ** Column names are tokens *)

Lemma push_char_tokens (c : ascii) (ls : list str) :
  isspace c = false -> Forall is_token ls -> Forall is_token (push_char c ls).
Proof.
  intros Hc H. destruct ls as [|l ls]; cbn.
  - constructor; [|constructor]. split; [discriminate | now repeat constructor].
  - inversion H as [|? ? [_ Hl] Hls]; subst. constructor; [|exact Hls].
    split; [discriminate | now constructor].
Qed.

Lemma words_tokens (s : str) : Forall is_token (words s).
Proof.
  induction s as [|c s IH]; cbn [words]; [constructor|].
  destruct (isspace c) eqn:Ec; [exact IH|].
  destruct s as [|c' s].
  - constructor; [|constructor]. split; [discriminate | now repeat constructor].
  - destruct (isspace c').
    + constructor; [|exact IH]. split; [discriminate | now repeat constructor].
    + now apply push_char_tokens.
Qed.

(** X6: the column names that the parser takes from the header line are
    tokens, none empty and none with whitespace in it; the one exception
    is a blank header line, which gives the single empty name. *)
Theorem X6_column_names_are_tokens (file_content : str)
    (column_names : list str) (data : str) :
  scan_header file_content = Located column_names data ->
  column_names = [[]] \/ Forall is_token column_names.
Proof.
  intros Hscan.
  destruct (scan_header_cases file_content)
    as [[_ E] | [i [Hf [[_ E] | [[_ [_ E]] | [H2 [Hl E]]]]]]]; try congruence.
  rewrite E in Hscan. injection Hscan as <- _.
  rewrite column_names_words.
  pose proof (words_tokens (nth (i - 2) (splitlines file_content) [])) as H.
  destruct (words (nth (i - 2) (splitlines file_content) []));
    [now left | now right].
Qed.

Lemma X6_witness :
  [lit "Freq(Hz)"; lit "Z'(a)"; lit "Z''(b)"] = [[]]
  \/ Forall is_token [lit "Freq(Hz)"; lit "Z'(a)"; lit "Z''(b)"].
Proof.
  apply (X6_column_names_are_tokens sample_member _
           (lit "100  50.0  -20.0" ++ [LF])).
  vm_compute. reflexivity.
Defined.

(** ** What the last message says about the files *)

Lemma warnings_shape (df : DataFrame) :
  warnings df = [] \/ exists m, warnings df = [WarnMissingColumns m].
Proof. unfold warnings. destruct (absent_targets df); eauto. Qed.

Lemma not_empty_rows (t : Table) : empty t = false -> (1 <= length (rows t))%nat.
Proof.
  unfold empty. destruct (header t); [discriminate|].
  destruct (rows t); [discriminate | simpl; lia].
Qed.

Lemma handler_message (base out : str) (e : exn) :
  exists d, parse_handler base out e = Some (print d)
            /\ forall n nm, d <> MsgSuccess n nm.
Proof. destruct e; cbn; eexists; (split; [reflexivity | discriminate]). Qed.

(** X7: with a console that shows every message, every run of the
    parser ends with exactly one closing message, after at most one
    warning about missing columns.  The closing message is the success
    message only when both files have been written with the extracted
    table, which then has at least one row, the number of rows being the
    number that the message gives. *)
Theorem X7_report_matches_files (float_repr : Q -> str)
    (file_content base out : str) (w : world) :
  let r := parse_ascii_content float_repr file_content base out w in
  exists ws d,
    console (snd r) = console w ++ ws ++ [d]
    /\ (ws = [] \/ exists m, ws = [WarnMissingColumns m])
    /\ forall n nm,
         d = MsgSuccess n nm ->
         exists t,
           table_of file_content = Some t /\ n = length (rows t)
           /\ (1 <= n)%nat /\ nm = basename (csv_path out base)
           /\ files (snd r) !! csv_path out base
              = Some (csv_text float_repr "," t)
           /\ files (snd r) !! txt_path out base
              = Some (csv_text float_repr TAB t).
Proof.
  intros r. unfold r.
  destruct (scan_header file_content) as [| | |names data] eqn:Hscan.
  1-3: unfold parse_ascii_content, parse_body; rewrite Hscan;
       eexists [], _; cbn; split; [reflexivity | split; [now left | discriminate]].
  destruct (read_csv names data) as [e | df] eqn:Hread.
  - rewrite (parse_read_error _ _ _ _ _ _ _ _ Hscan Hread).
    destruct (handler_message base out e) as [d [-> Hd]].
    exists [], d. cbn. split; [reflexivity|]. split; [now left|].
    intros n nm ->. now elim (Hd n nm).
  - rewrite (parse_located _ _ _ _ _ _ _ _ Hscan Hread).
    unfold try_except. rewrite extract_and_save_run. cbv zeta.
    destruct (empty (extracted_table df)) eqn:He.
    + exists (warnings df), SkipNoNumericData. cbn.
      split; [now rewrite <- app_assoc|]. split; [apply warnings_shape|].
      discriminate.
    + destruct (deny w !! csv_path out base) as [e|] eqn:Hcsv.
      * destruct (handler_message base out e) as [d [-> Hd]].
        exists (warnings df), d. cbn.
        split; [now rewrite <- app_assoc|]. split; [apply warnings_shape|].
        intros n nm ->. now elim (Hd n nm).
      * destruct (deny w !! txt_path out base) as [e|] eqn:Htxt.
        -- destruct (handler_message base out e) as [d [-> Hd]].
           exists (warnings df), d. cbn.
           split; [now rewrite <- app_assoc|]. split; [apply warnings_shape|].
           intros n nm ->. now elim (Hd n nm).
        -- exists (warnings df), (MsgSuccess (length (rows (extracted_table df)))
                                       (basename (csv_path out base))).
           cbn [snd console files say].
           split; [now rewrite <- app_assoc|]. split; [apply warnings_shape|].
           intros n nm Hd. injection Hd as <- <-.
           exists (extracted_table df). split.
           { unfold table_of. now rewrite Hscan, Hread, He. }
           split; [reflexivity|].
           split; [exact (not_empty_rows (extracted_table df) He)|].
           split; [reflexivity|]. split.
           ++ rewrite lookup_insert_ne
                by (intros H; symmetry in H; now apply paths_differ in H).
              apply lookup_insert_eq.
           ++ apply lookup_insert_eq.
Qed.

(** ** A refused first write *)

(** X8: when the comma separated file cannot be opened for writing,
    nothing is written at all: the tab separated file is not attempted,
    even where it could be written.  A permission error is reported with
    the permission message, any other error of the operating system with
    the general failure message. *)
Theorem X8_first_write_refused (float_repr : Q -> str)
    (file_content base out : str) (w : world) (t : Table) (e : exn) :
  table_of file_content = Some t ->
  deny w !! csv_path out base = Some e ->
  e = PermissionError \/ e = OSError ->
  let r := parse_ascii_content float_repr file_content base out w in
  fst r = inr tt /\ files (snd r) = files w
  /\ exists ws,
       (ws = [] \/ exists m, ws = [WarnMissingColumns m])
       /\ console (snd r)
          = console w ++ ws
            ++ [match e with
                | PermissionError =>
                  FailPermissionDenied (basename (csv_path out base))
                | _ => FailParse e
                end].
Proof.
  intros Ht Hcsv He r.
  destruct (table_of_some _ _ Ht) as [names [data [df [Hscan [Hread [-> Hne]]]]]].
  unfold r. rewrite (parse_located _ _ _ _ _ _ _ _ Hscan Hread).
  unfold try_except. rewrite extract_and_save_run. cbv zeta.
  rewrite Hne, Hcsv.
  destruct He as [-> | ->]; cbn; (split; [reflexivity|]); (split; [reflexivity|]);
    exists (warnings df); (split; [apply warnings_shape|]);
    now rewrite <- app_assoc.
Qed.

Lemma X8_witness :
  let r := parse_ascii_content exact_repr sample_negative
             (lit "sample-Run01") OUTPUT_FOLDER csv_locked in
  files (snd r) = ∅ /\ console (snd r) = [FailParse OSError].
Proof.
  destruct (X8_first_write_refused exact_repr sample_negative
              (lit "sample-Run01") OUTPUT_FOLDER csv_locked
              {| header := [lit "frequency (Hz)"; lit "Z_real (Ohm)";
                            lit "Z_imag (Ohm)"];
                 rows := [[Num (1000 # 1); Num (25 # 10);
                           Num (-123 # 1000000)]] |} OSError)
    as [_ [H2 _]].
  - vm_compute. reflexivity.
  - vm_compute. reflexivity.
  - now right.
  - split; [exact H2 | vm_compute; reflexivity].
Defined.

(** ** No target column *)

Lemma has_column_false (df : DataFrame) (name : str) :
  name ∉ columns df -> has_column df name = false.
Proof. intros H. unfold has_column. now apply bool_decide_eq_false. Qed.

(** X9: when the header line names none of the three target columns,
    and names no column twice, the member is skipped: the parser warns
    that all three are missing, in the order of the column map, reports
    that there is no numeric data, and writes nothing. *)
Theorem X9_no_target_column (float_repr : Q -> str)
    (file_content base out : str) (w : world)
    (column_names : list str) (data : str) :
  scan_header file_content = Located column_names data ->
  NoDup column_names ->
  (forall item, item ∈ TARGET_COLUMNS_MAP -> item.1 ∉ column_names) ->
  parse_ascii_content float_repr file_content base out w
  = (inr tt,
     say w [ WarnMissingColumns [lit "Freq(Hz)"; lit "Z'(a)"; lit "Z''(b)"];
             SkipNoNumericData ]).
Proof.
  intros Hscan Hnd Hnone.
  assert (Hdup : has_dup column_names = false).
  { apply not_true_is_false. intros H. now apply has_dup_spec in H. }
  assert (Hread : exists df, read_csv column_names data = inr df
                             /\ columns df = column_names).
  { unfold read_csv. rewrite Hdup. eexists. split; reflexivity. }
  destruct Hread as [df [Hread Hcols]].
  rewrite (parse_located _ _ _ _ _ _ _ _ Hscan Hread).
  unfold try_except. rewrite extract_and_save_run. cbv zeta.
  assert (H1 : has_column df (lit "Freq(Hz)") = false).
  { apply has_column_false. rewrite Hcols.
    apply (Hnone (lit "Freq(Hz)", lit "frequency (Hz)")). apply list_elem_of_here. }
  assert (H2 : has_column df (lit "Z'(a)") = false).
  { apply has_column_false. rewrite Hcols.
    apply (Hnone (lit "Z'(a)", lit "Z_real (Ohm)")).
    apply list_elem_of_further, list_elem_of_here. }
  assert (H3 : has_column df (lit "Z''(b)") = false).
  { apply has_column_false. rewrite Hcols.
    apply (Hnone (lit "Z''(b)", lit "Z_imag (Ohm)")).
    do 2 apply list_elem_of_further. apply list_elem_of_here. }
  unfold extracted_table. rewrite extract_columns_spec.
  unfold warnings, absent_targets, present_targets, TARGET_COLUMNS_MAP.
  cbn [List.filter fst snd]. rewrite H1, H2, H3. cbn.
  now rewrite say_say.
Qed.

Lemma X9_witness :
  parse_ascii_content exact_repr sample_other_columns (lit "sample-Run01")
    OUTPUT_FOLDER fresh
  = (inr tt,
     say fresh [ WarnMissingColumns [lit "Freq(Hz)"; lit "Z'(a)"; lit "Z''(b)"];
                 SkipNoNumericData ]).
Proof.
  apply (X9_no_target_column exact_repr sample_other_columns _ _ _
           [lit "Time(s)"; lit "E(V)"; lit "I(A)"]
           (lit "0.5  1.0  2.0" ++ [LF])).
  - vm_compute. reflexivity.
  - apply NoDup_ListNoDup. repeat constructor; cbn; intuition discriminate.
  - intros item Hitem. unfold TARGET_COLUMNS_MAP in Hitem.
    rewrite !elem_of_cons in Hitem.
    destruct Hitem as [-> | [-> | [-> | H]]]; [| | |inversion H];
      cbn [fst]; rewrite !not_elem_of_cons;
      (repeat split; [discriminate .. | apply not_elem_of_nil]).
Defined.

(** ** Which members are taken *)

Lemma lower_char_z (c : ascii) :
  lower_char c = "z"%char <-> c = "z"%char \/ c = "Z"%char.
Proof.
  destruct c as [[] [] [] [] [] [] [] []]; vm_compute;
    split; intros H; try discriminate; try (destruct H; discriminate); auto.
Qed.

Lemma lower_char_dot (c : ascii) : lower_char c = "."%char <-> c = "."%char.
Proof.
  destruct c as [[] [] [] [] [] [] [] []]; vm_compute;
    split; intros H; try discriminate; auto.
Qed.

Lemma endswith_z (f : str) :
  endswith (lit ".z") (lower f) = true <->
  exists stem, f = stem ++ lit ".z" \/ f = stem ++ lit ".Z".
Proof.
  unfold endswith, lower. rewrite <- map_rev.
  change (rev (lit ".z")) with ["z"%char; "."%char]. split.
  - intros H. destruct (rev f) as [|a [|b rest]] eqn:E; cbn [startswith map] in H;
      try discriminate; try (rewrite andb_false_r in H; discriminate).
    rewrite andb_true_r in H. apply andb_true_iff in H. destruct H as [Ha Hb].
    apply Ascii.eqb_eq in Ha. apply Ascii.eqb_eq in Hb.
    symmetry in Ha. symmetry in Hb.
    apply (proj1 (lower_char_z a)) in Ha.
    apply (proj1 (lower_char_dot b)) in Hb. subst b.
    exists (rev rest). apply (f_equal (@rev _)) in E.
    rewrite rev_involutive in E. cbn [rev] in E. rewrite <- app_assoc in E.
    destruct Ha as [-> | ->]; [left | right]; exact E.
  - intros [stem [-> | ->]]; rewrite rev_app_distr; reflexivity.
Qed.

(** Messages of a given kind only. *)
Lemma prints_only_mono {A} (P Q : diag -> Prop) (m : M A) :
  (forall d, P d -> Q d) -> prints_only P m -> prints_only Q m.
Proof.
  intros HPQ Hm w. destruct (Hm w) as [ds [Hds HP]]. exists ds.
  split; [exact Hds | now apply (Forall_impl _ _ _ HP)].
Qed.

Lemma prints_only_silent {A} (P : diag -> Prop) (m : M A) :
  (forall w, console (snd (m w)) = console w) -> prints_only P m.
Proof.
  intros H w. exists []. rewrite H, app_nil_r. split; [reflexivity | constructor].
Qed.

Lemma prints_only_lift {A} (P : diag -> Prop) (r : exn + A) :
  prints_only P (lift r).
Proof. apply prints_only_silent. intros w. now destruct r. Qed.

Lemma prints_only_write_file (P : diag -> Prop) (path content : str) :
  prints_only P (write_file path content).
Proof.
  apply prints_only_silent. intros w. unfold write_file.
  now destruct (deny w !! path).
Qed.

Lemma prints_only_print (P : diag -> Prop) (d : diag) :
  P d -> prints_only P (print d).
Proof. intros Hd w. exists [d]. split; [reflexivity | now repeat constructor]. Qed.

Lemma prints_only_bind {A B} (P : diag -> Prop) (m : M A) (k : A -> M B) :
  prints_only P m -> (forall a, prints_only P (k a)) -> prints_only P (bind m k).
Proof.
  intros Hm Hk w. unfold bind. destruct (Hm w) as [ds [Hds HP]].
  destruct (m w) as [[e | a] w']; cbn in *.
  - now exists ds.
  - destruct (Hk a w') as [ds' [Hds' HP']]. exists (ds ++ ds'). split.
    + now rewrite Hds', Hds, app_assoc.
    + apply Forall_app. now split.
Qed.

Lemma prints_only_try_except {A} (P : diag -> Prop) (body : M A)
    (handler : exn -> option (M A)) :
  prints_only P body -> (forall e h, handler e = Some h -> prints_only P h) ->
  prints_only P (try_except body handler).
Proof.
  intros Hb Hh w. unfold try_except. destruct (Hb w) as [ds [Hds HP]].
  destruct (body w) as [[e | a] w']; cbn in *.
  - destruct (handler e) as [h|] eqn:E; [|now exists ds].
    destruct (Hh e h E w') as [ds' [Hds' HP']]. exists (ds ++ ds'). split.
    + now rewrite Hds', Hds, app_assoc.
    + apply Forall_app. now split.
  - now exists ds.
Qed.

Lemma prints_only_for_each {A} (P : diag -> Prop) (body : A -> M unit)
    (xs : list A) :
  (forall x, x ∈ xs -> prints_only P (body x)) -> prints_only P (for_each body xs).
Proof.
  induction xs as [|x xs IH]; intros H.
  - apply prints_only_silent. reflexivity.
  - cbn [for_each]. apply prints_only_bind.
    + apply H, list_elem_of_here.
    + intros _. apply IH. intros y Hy. apply H. now apply list_elem_of_further.
Qed.

(** The parser announces no member. *)
Lemma prints_only_parse_ascii_content (float_repr : Q -> str)
    (file_content base out : str) :
  prints_only (announces_only [])
              (parse_ascii_content float_repr file_content base out).
Proof.
  unfold parse_ascii_content. apply prints_only_try_except.
  - unfold parse_body. destruct (scan_header file_content);
      try (apply prints_only_print; intros name Hd; discriminate).
    apply prints_only_bind; [apply prints_only_lift|].
    intros df. unfold extract_and_save.
    destruct (extract_columns df) as [f missing].
    apply prints_only_bind.
    + destruct missing;
        [apply prints_only_silent; reflexivity
        |apply prints_only_print; intros name Hd; discriminate].
    + intros _. destruct (empty (dropna f));
        [apply prints_only_print; intros name Hd; discriminate|].
      unfold to_csv.
      repeat (apply prints_only_bind; [apply prints_only_write_file | intros _]).
      apply prints_only_print. intros name Hd. discriminate.
  - intros e h He.
    destruct e; cbn in He; injection He as <-; apply prints_only_print;
      intros name Hd; discriminate.
Qed.

(** An archive announces its selected members only. *)
Lemma prints_only_process_mdat_file (float_repr : Q -> str)
    (path out : str) (entries : list (str * read_result)) :
  prints_only (announces_only (ac_files entries))
    (process_mdat_file float_repr {| file_path := path; on_disk := Zip entries |}
                       out).
Proof.
  unfold process_mdat_file.
  apply prints_only_bind;
    [apply prints_only_print; intros name Hd; discriminate | intros _].
  apply prints_only_try_except.
  - unfold process_body. cbn [on_disk file_path].
    destruct (ac_files entries) as [|n ns] eqn:E;
      [apply prints_only_print; intros name Hd; discriminate|].
    apply prints_only_bind;
      [apply prints_only_print; intros name Hd; discriminate | intros _].
    apply prints_only_for_each. intros x Hx. unfold process_member.
    apply prints_only_bind.
    + apply prints_only_print. intros name Hd. now injection Hd as <-.
    + intros _. apply prints_only_bind; [apply prints_only_lift | intros data].
      cbn [decode_latin1].
      apply (prints_only_mono (announces_only [])).
      * intros d Hd name Hn. apply Hd in Hn. inversion Hn.
      * apply prints_only_parse_ascii_content.
  - intros e h He.
    destruct e; cbn in He; injection He as <-; apply prints_only_print;
      intros name Hd; discriminate.
Qed.

(** X10: the member loop runs over the entries of the archive whose name
    ends in [.z] or [.Z], and over nothing else: a member is announced,
    read and parsed only if its name is the name of such an entry.  (An
    entry of such a name is not always processed: the loop ends when a
    member cannot be read.) *)
Theorem X10_member_filter (float_repr : Q -> str) (path out : str)
    (entries : list (str * read_result)) (w : world) :
  (forall name,
     name ∈ ac_files entries <->
     name ∈ map fst entries /\
     exists stem, name = stem ++ lit ".z" \/ name = stem ++ lit ".Z")
  /\ (forall name,
        MsgParsing name
          ∈ console (snd (process_mdat_file float_repr
                            {| file_path := path; on_disk := Zip entries |}
                            out w)) ->
        MsgParsing name ∈ console w \/ name ∈ ac_files entries).
Proof.
  split.
  - intros name. unfold ac_files.
    rewrite list_elem_of_In, filter_In, <- list_elem_of_In.
    now rewrite endswith_z.
  - intros name.
    destruct (prints_only_process_mdat_file float_repr path out entries w)
      as [ds [-> Hds]].
    rewrite elem_of_app. intros [H | H]; [now left | right].
    rewrite Forall_forall in Hds. now apply (Hds _ H name).
Qed.

(** ** Archives that give nothing to parse *)


(** ** Two members of one run *)

Lemma process_member_run (float_repr : Q -> str)
    (entries : list (str * read_result)) (base out name : str) (w : world)
    (data : list Byte.byte) :
  zip_read entries name = inr data ->
  process_member float_repr entries base out name w
  = parse_ascii_content float_repr (map ascii_of_byte data)
      (output_base_name base name) out (say w [MsgParsing name]).
Proof.
  intros Hread. unfold process_member, bind, print, lift. now rewrite Hread.
Qed.

Lemma parse_ascii_content_deny (float_repr : Q -> str)
    (file_content base out : str) (w : world) :
  deny (snd (parse_ascii_content float_repr file_content base out w)) = deny w.
Proof.
  destruct (overlays_parse_ascii_content float_repr file_content base out (deny w))
    as [r [W [_ H]]].
  now destruct (H w eq_refl) as [_ [_ H3]].
Qed.



(** ** Lines of the output files *)

Lemma count_lf_app (s t : str) : count_lf (s ++ t) = (count_lf s + count_lf t)%nat.
Proof. unfold count_lf. now rewrite List.filter_app, length_app. Qed.

Lemma plain_char_not_lf (c : ascii) : plain_char c = true -> is_lf c = false.
Proof.
  unfold plain_char. intros H. apply negb_true_iff in H.
  rewrite !orb_false_iff in H. destruct H as [_ H].
  apply not_true_is_false. intros Hlf. unfold is_lf, ord in Hlf.
  apply N.eqb_eq in Hlf. apply (f_equal ascii_of_N) in Hlf.
  rewrite ascii_N_embedding in Hlf. subst c.
  now rewrite Ascii.eqb_refl in H.
Qed.

Lemma plain_field_no_lf (s : str) : plain_field s = true -> count_lf s = 0%nat.
Proof.
  intros H. apply plain_field_forall in H. destruct H as [H _].
  unfold count_lf. induction s as [|c s IH]; [reflexivity|].
  cbn [forallb] in H. apply andb_true_iff in H. destruct H as [Hc Hs].
  cbn [List.filter]. rewrite (plain_char_not_lf c Hc). now apply IH.
Qed.

Lemma join_no_lf (sep : ascii) (fields : list str) :
  is_lf sep = false ->
  Forall (fun s => plain_field s = true) fields ->
  count_lf (join [sep] fields) = 0%nat.
Proof.
  intros Hsep H. induction H as [|s fields Hs Hf IH]; [reflexivity|].
  destruct fields as [|s' fields]; [now apply plain_field_no_lf|].
  change (join [sep] (s :: s' :: fields))
    with (s ++ [sep] ++ join [sep] (s' :: fields)).
  rewrite !count_lf_app, (plain_field_no_lf s Hs), IH.
  unfold count_lf. cbn [List.filter]. now rewrite Hsep.
Qed.

Lemma plain_text_lines (sep : ascii) (cells : list (list str)) :
  is_lf sep = false ->
  Forall (Forall (fun s => plain_field s = true)) cells ->
  count_lf (plain_text sep cells) = length cells.
Proof.
  intros Hsep H. unfold plain_text.
  induction H as [|fields cells Hf _ IH]; [reflexivity|].
  cbn [map concat length]. rewrite !count_lf_app, (join_no_lf sep fields Hsep Hf), IH.
  reflexivity.
Qed.

(** X13: each output file of a member has one line feed for the header
    row and one for each row of the extracted table, so the number of
    rows in the success message is the number of data lines of either
    file.  (The text of a number is taken to be non-empty and free of
    comma, tab, quote and line feed.) *)
Theorem X13_one_line_per_row (float_repr : Q -> str) (file_content : str)
    (t : Table) :
  table_of file_content = Some t ->
  forallb (forallb (plain_number float_repr)) (rows t) = true ->
  count_lf (csv_text float_repr "," t) = S (length (rows t))
  /\ count_lf (csv_text float_repr TAB t) = S (length (rows t)).
Proof.
  intros Ht Hplain.
  destruct (table_of_some _ _ Ht) as [names [data [df [_ [_ [-> _]]]]]].
  pose proof (table_cells_plain float_repr df Hplain) as Hcells.
  split.
  - rewrite csv_text_plain by (auto; now left).
    rewrite plain_text_lines by (auto; reflexivity).
    cbn [length]. now rewrite length_map.
  - rewrite csv_text_plain by (auto; now right).
    rewrite plain_text_lines by (auto; reflexivity).
    cbn [length]. now rewrite length_map.
Qed.

Lemma X13_witness :
  count_lf (lit "frequency (Hz),Z_real (Ohm),Z_imag (Ohm)" ++ [LF]
            ++ lit "1000/1,25/10,-123/1000000" ++ [LF]) = 2%nat.
Proof.
  destruct (X13_one_line_per_row exact_repr sample_negative
              {| header := [lit "frequency (Hz)"; lit "Z_real (Ohm)";
                            lit "Z_imag (Ohm)"];
                 rows := [[Num (1000 # 1); Num (25 # 10);
                           Num (-123 # 1000000)]] |}) as [H _].
  - vm_compute. reflexivity.
  - vm_compute. reflexivity.
  - exact H.
Defined.

(** ** How the batch begins and ends *)


(** ** One member, two paths *)

(** X15: parsing one member changes no file other than its own two
    output paths, and it leaves the write permissions as they are;
    output files of other members are never touched. *)
Theorem X15_member_writes_two_paths (float_repr : Q -> str)
    (file_content base out : str) (w : world) (p : str) :
  let r := parse_ascii_content float_repr file_content base out w in
  (files (snd r) !! p = files w !! p
   \/ p = csv_path out base \/ p = txt_path out base)
  /\ deny (snd r) = deny w.
Proof.
  intros r. split.
  - apply (overlays_frame (member_path out base)),
      overlays_parse_ascii_content.
  - apply parse_ascii_content_deny.
Qed.
